(** * cafe-app-ai: the order engine, the authorization gate and the
      restaurant directory of the tRPC back end, as a shallow embedding.

    Sources embedded here:
    - [src/unnamed/part_000]            (tRPC initialisation: [isAuthed], [isOwner],
                                         [protectedProcedure], [ownerProcedure])
    - [src/db/schema/restaurant.ts]     (tables and their column types)
    - [src/lib/trpc/routers/order.ts]   ([orderRouter] and, after it, [aiRouter])
    - [src/lib/trpc/routers/restaurant.ts] ([restaurantRouter])
    - [src/lib/trpc/routers/menu.ts]    ([menuRouter], without
                                         [getByRestaurant])

    A procedure is a function from the data base to a result and a data
    base: an exception leaves the writes made before it in place, since
    the routers never open a transaction. *)

From Stdlib Require Import ZArith QArith List String Ascii Bool Lia DecimalString
  SpecFloat Sorted.
Import ListNotations.

Open Scope string_scope.
Open Scope list_scope.

Infix "+++" := String.append (right associativity, at level 60).

(* ================================================================== *)
(** ** JavaScript numbers *)

(** A JavaScript [number] is an IEEE-754 binary64 value.  The operations
    are the ones of [SpecFloat] at precision 53 and maximal exponent 1024,
    so that [add], [mul] and [div] round to nearest, ties to even. *)
Module JsNumber.

Definition prec : Z := 53.
Definition emax : Z := 1024.

Definition number : Type := spec_float.

Definition ofZ (z : Z) : number := binary_normalize prec emax z 0 false.

Definition zero : number := S754_zero false.

Definition add (x y : number) : number := SFadd prec emax x y.
Definition mul (x y : number) : number := SFmul prec emax x y.
Definition div (x y : number) : number := SFdiv prec emax x y.

Definition leb (x y : number) : bool := SFleb x y.
Definition ltb (x y : number) : bool := SFltb x y.
Definition eqb (x y : number) : bool := SFeqb x y.

(** [Number(s)] for the text [s] of a [decimal(10, 2)] column, given as
    its count of hundredths: the double nearest to [hundredths / 100].
    Both operands are exact, so the correctly rounded quotient is that
    double. *)
Definition ofDecimal2 (hundredths : Z) : number :=
  div (ofZ hundredths) (ofZ 100).

(** [sum xs] is [xs.reduce((a, x) => a + x, 0)]: accumulation from [0],
    left to right. *)
Definition sum (xs : list number) : number := fold_left add xs zero.



End JsNumber.

Import JsNumber.

(* ================================================================== *)
(** ** tRPC errors and procedures *)

Inductive TRPC_ERROR_CODE : Type :=
| NOT_FOUND
| UNAUTHORIZED
| FORBIDDEN
| BAD_REQUEST
| CONFLICT
| INTERNAL_SERVER_ERROR.

Record TRPCError : Type := mkTRPCError {
  code : TRPC_ERROR_CODE;
  message : string
}.

Inductive Result (A : Type) : Type :=
| Ok (a : A)
| Err (e : TRPCError).

Arguments Ok {A} a.
Arguments Err {A} e.

Definition isOk {A : Type} (r : Result A) : bool :=
  match r with Ok _ => true | Err _ => false end.

Definition errorCode {A : Type} (r : Result A) : option TRPC_ERROR_CODE :=
  match r with Ok _ => None | Err e => Some (code e) end.

(* ================================================================== *)
(** ** The schema ([src/db/schema/restaurant.ts]) *)

(** Column types: [text] and [varchar] are strings, nullable columns are
    options, [timestamp] is a count of milliseconds, [boolean] is [bool].
    A [decimal(10, 2)] column that the routers only read ([price],
    [displayOrder]) holds its count of hundredths; the [decimal(10, 2)]
    columns of [orders] and [order_items] are written from JavaScript
    numbers and hold the number the router handed to the insert: the
    range of the column is checked on insert, its rounding to two decimals
    is not part of the model. *)

Record Restaurant : Type := mkRestaurant {
  r_id : string;
  r_name : string;
  r_description : option string;
  r_slug : string;
  r_location : option string;
  r_phone : option string;
  r_email : option string;
  r_logo : option string;
  r_coverImage : option string;
  r_isActive : bool;
  r_ownerId : string;
  r_createdAt : Z;
  r_updatedAt : Z
}.

Record MenuCategory : Type := mkMenuCategory {
  mc_id : string;
  mc_name : string;
  mc_description : option string;
  mc_displayOrder : Z;
  mc_restaurantId : string;
  mc_createdAt : Z;
  mc_updatedAt : Z
}.

Record MenuItem : Type := mkMenuItem {
  mi_id : string;
  mi_name : string;
  mi_description : option string;
  mi_price : Z;
  mi_image : option string;
  mi_isAvailable : bool;
  mi_displayOrder : Z;
  mi_category : option string;
  mi_ingredients : option string;
  mi_preparationTime : option string;
  mi_categoryId : string;
  mi_restaurantId : string;
  mi_createdAt : Z;
  mi_updatedAt : Z
}.

Record Order : Type := mkOrder {
  o_id : string;
  o_orderNumber : string;
  o_totalAmount : number;
  o_status : string;
  o_customerName : option string;
  o_customerEmail : option string;
  o_customerPhone : option string;
  o_notes : option string;
  o_estimatedDeliveryTime : option Z;
  o_actualDeliveryTime : option Z;
  o_restaurantId : string;
  o_customerId : string;
  o_createdAt : Z;
  o_updatedAt : Z
}.

Record OrderItem : Type := mkOrderItem {
  oi_id : string;
  oi_quantity : number;
  oi_unitPrice : number;
  oi_totalPrice : number;
  oi_specialInstructions : option string;
  oi_orderId : string;
  oi_menuItemId : string;
  oi_createdAt : Z;
  oi_updatedAt : Z
}.

(** The data base: one list of rows per table, in insertion order. *)
Record Db : Type := mkDb {
  restaurants : list Restaurant;
  menuCategories : list MenuCategory;
  menuItems : list MenuItem;
  orders : list Order;
  orderItems : list OrderItem
}.

(** What a request cannot compute from its input: the identifiers that
    [nanoid()] returns (the [k]-th call of the request), the clock, and the
    suffix [Math.random().toString(36).substr(2, 9).toUpperCase()]. *)
Record Env : Type := mkEnv {
  nanoid : nat -> string;
  now : Z;
  randomSuffix : string
}.

(* ================================================================== *)
(** ** Procedures as state-passing computations *)

Definition Proc (A : Type) : Type := Db -> Result A * Db.

Definition ret {A : Type} (a : A) : Proc A := fun db => (Ok a, db).

Definition throw {A : Type} (c : TRPC_ERROR_CODE) (msg : string) : Proc A :=
  fun db => (Err (mkTRPCError c msg), db).

Definition bind {A B : Type} (m : Proc A) (k : A -> Proc B) : Proc B :=
  fun db =>
    match m db with
    | (Ok a, db') => k a db'
    | (Err e, db') => (Err e, db')
    end.

Notation "x <- m ;; k" := (bind m (fun x => k))
  (at level 100, m at next level, right associativity).

(** [await ctx.db.query...]: a read. *)
Definition query {A : Type} (q : Db -> A) : Proc A := fun db => (Ok (q db), db).

(** [try { body } catch (error) { handler }]: the handler runs in the
    data base the body left behind. *)
Definition tryCatch {A : Type} (body : Proc A) (handler : TRPCError -> Proc A)
  : Proc A :=
  fun db =>
    match body db with
    | (Ok a, db') => (Ok a, db')
    | (Err e, db') => handler e db'
    end.

(** An exception that is not a [TRPCError] (a [TypeError], an error of the
    data base driver) reaches the caller as [INTERNAL_SERVER_ERROR]. *)
Definition throwOther {A : Type} (msg : string) : Proc A :=
  throw INTERNAL_SERVER_ERROR msg.

(** [findFirst({ where })] and [findMany({ where })]. *)
Definition findFirst {A : Type} (cond : A -> bool) (rows : list A) : option A :=
  find cond rows.

Definition findMany {A : Type} (cond : A -> bool) (rows : list A) : list A :=
  filter cond rows.

(* ================================================================== *)
(** ** Session and middlewares ([src/unnamed/part_000]) *)

Record User : Type := mkUser {
  u_id : string;
  u_name : string;
  u_email : string;
  u_role : option string
}.

Record Session : Type := mkSession {
  s_user : option User
}.

Record Context : Type := mkContext {
  ctx_session : option Session
}.

Definition loggedOut {A : Type} : Proc A :=
  throw UNAUTHORIZED "You must be logged in to access this resource".

Definition isAuthed {A : Type} (ctx : Context) (next : Context -> Proc A)
  : Proc A :=
  match ctx_session ctx with
  | None => loggedOut
  | Some s =>
      match s_user s with
      | None => loggedOut
      | Some u => next (mkContext (Some (mkSession (Some u))))
      end
  end.

(** [userRole !== 'OWNER'], where the role may be undefined. *)
Definition roleIsNotOwner (role : option string) : bool :=
  match role with
  | Some r => negb (r =? "OWNER")
  | None => true
  end.

Definition isOwner {A : Type} (ctx : Context) (next : Context -> Proc A)
  : Proc A :=
  match ctx_session ctx with
  | None => loggedOut
  | Some s =>
      match s_user s with
      | None => loggedOut
      | Some u =>
          if roleIsNotOwner (u_role u)
          then throw FORBIDDEN
                 "You must be a restaurant owner to access this resource"
          else next (mkContext (Some (mkSession (Some u))))
      end
  end.

(** A procedure is its middlewares, then the validation of the input, then
    the resolver.  [valid] is the part of the zod schema that the types of
    the input do not already express. *)
Definition publicProcedure {I O : Type} (valid : I -> bool)
    (resolver : Context -> I -> Proc O) (ctx : Context) (input : I) : Proc O :=
  if valid input then resolver ctx input
  else throw BAD_REQUEST "Input validation failed".

Definition protectedProcedure {I O : Type} (valid : I -> bool)
    (resolver : Context -> I -> Proc O) (ctx : Context) (input : I) : Proc O :=
  isAuthed ctx (fun ctx1 => publicProcedure valid resolver ctx1 input).

Definition ownerProcedure {I O : Type} (valid : I -> bool)
    (resolver : Context -> I -> Proc O) (ctx : Context) (input : I) : Proc O :=
  isAuthed ctx (fun ctx1 =>
    isOwner ctx1 (fun ctx2 => publicProcedure valid resolver ctx2 input)).

(** [ctx.session.user] inside a resolver: a [TypeError] when there is no
    user, which the middlewares rule out. *)
Definition sessionUser {A : Type} (ctx : Context) (k : User -> Proc A) : Proc A :=
  match ctx_session ctx with
  | Some (mkSession (Some u)) => k u
  | _ => throwOther "Cannot read properties of undefined"
  end.

(** [a || b] on an optional string: the empty string is falsy. *)
Definition orElse (a : option string) (b : string) : string :=
  match a with
  | Some s => if s =? "" then b else s
  | None => b
  end.

Definition truthy (a : option string) : bool :=
  match a with
  | Some s => negb (s =? "")
  | None => false
  end.

(* ================================================================== *)
(** ** Writes and the constraints of the schema *)

(** A [decimal(10, 2)] column holds at most eight digits before the
    point.  The driver sends a number as its shortest decimal text and the
    column rounds it to two decimals, half away from zero; what does not
    fit after rounding is refused ("numeric field overflow").  A text of at
    most eleven significant digits is the shortest text of the double
    nearest to it, so a finite number fits exactly when its magnitude is
    below the double nearest to 99999999.995.  An infinity never fits. *)
Definition numeric_10_2_limit : number := div (ofZ 99999999995) (ofZ 1000).

Definition fits_numeric_10_2 (x : number) : bool :=
  match x with
  | S754_nan => true
  | S754_infinity _ => false
  | _ => ltb (SFabs x) numeric_10_2_limit
  end.

Definition hasId {A : Type} (key : A -> string) (k : string) (rows : list A)
  : bool :=
  existsb (fun row => key row =? k) rows.

(** The object given to [insert(orders).values(...)]. *)
Record NewOrder : Type := mkNewOrder {
  no_id : string;
  no_orderNumber : string;
  no_totalAmount : number;
  no_status : string;
  no_customerName : option string;
  no_customerEmail : option string;
  no_customerPhone : option string;
  no_notes : option string;
  no_restaurantId : string;
  no_customerId : string
}.

(** The row that the insert creates: the columns left out are null, the
    two time stamps take their [$defaultFn]. *)
Definition orderRow (env : Env) (v : NewOrder) : Order :=
  mkOrder (no_id v) (no_orderNumber v) (no_totalAmount v) (no_status v)
          (no_customerName v) (no_customerEmail v) (no_customerPhone v)
          (no_notes v) None None (no_restaurantId v) (no_customerId v)
          (now env) (now env).

(** Primary key, [unique] and [varchar(50)] on the order number, the range
    of [total_amount], and the foreign key to [restaurants].  The foreign
    key to the [user] table is not checked: that table belongs to the
    authentication schema, which provides the session's user. *)
Definition orderAccepted (db : Db) (row : Order) : bool :=
  negb (hasId o_id (o_id row) (orders db))
  && negb (hasId o_orderNumber (o_orderNumber row) (orders db))
  && (String.length (o_orderNumber row) <=? 50)%nat
  && fits_numeric_10_2 (o_totalAmount row)
  && hasId r_id (o_restaurantId row) (restaurants db).

(** [ctx.db.insert(orders).values(v).returning()], first row. *)
Definition insertOrder (env : Env) (v : NewOrder) : Proc Order :=
  fun db =>
    let row := orderRow env v in
    if orderAccepted db row
    then (Ok row,
          mkDb (restaurants db) (menuCategories db) (menuItems db)
               (orders db ++ [row]) (orderItems db))
    else (Err (mkTRPCError INTERNAL_SERVER_ERROR "insert into orders failed"),
          db).

(** An element of [orderItemsData]. *)
Record OrderItemData : Type := mkOrderItemData {
  d_id : string;
  d_menuItemId : string;
  d_quantity : number;
  d_unitPrice : number;
  d_totalPrice : number;
  d_specialInstructions : option string
}.

(** [{ ...itemData, orderId }] as a row. *)
Definition orderItemRow (env : Env) (d : OrderItemData) (orderId : string)
  : OrderItem :=
  mkOrderItem (d_id d) (d_quantity d) (d_unitPrice d) (d_totalPrice d)
              (d_specialInstructions d) orderId (d_menuItemId d)
              (now env) (now env).

Definition orderItemAccepted (db : Db) (row : OrderItem) : bool :=
  negb (hasId oi_id (oi_id row) (orderItems db))
  && fits_numeric_10_2 (oi_quantity row)
  && fits_numeric_10_2 (oi_unitPrice row)
  && fits_numeric_10_2 (oi_totalPrice row)
  && hasId o_id (oi_orderId row) (orders db)
  && hasId mi_id (oi_menuItemId row) (menuItems db).

(** [ctx.db.insert(orderItems).values({ ...itemData, orderId })]. *)
Definition insertOrderItem (env : Env) (d : OrderItemData) (orderId : string)
  : Proc unit :=
  fun db =>
    let row := orderItemRow env d orderId in
    if orderItemAccepted db row
    then (Ok tt,
          mkDb (restaurants db) (menuCategories db) (menuItems db)
               (orders db) (orderItems db ++ [row]))
    else (Err (mkTRPCError INTERNAL_SERVER_ERROR
                 "insert into order_items failed"),
          db).

(** [update(orders).set(...).where(eq(orders.id, id)).returning()]: every
    row with that id is rewritten; the result is the list of rewritten
    rows. *)
Definition updateOrders (id : string) (set : Order -> Order)
  : Proc (list Order) :=
  fun db =>
    (Ok (map set (findMany (fun o => o_id o =? id) (orders db))),
     mkDb (restaurants db) (menuCategories db) (menuItems db)
          (map (fun o => if o_id o =? id then set o else o) (orders db))
          (orderItems db)).

(** [const [updated] = ...]: the first element, [undefined] when there is
    none.  The routers return it as it is. *)
Definition firstRow {A : Type} (rows : list A) : option A := hd_error rows.

(* ================================================================== *)
(** ** The order router ([src/lib/trpc/routers/order.ts]) *)

Module OrderRouter.

Inductive OrderStatus : Type :=
| PENDING | PREPARING | READY | COMPLETED | CANCELLED.

(** The text of a member of [orderStatusEnum]. *)
Definition statusText (s : OrderStatus) : string :=
  match s with
  | PENDING => "PENDING"
  | PREPARING => "PREPARING"
  | READY => "READY"
  | COMPLETED => "COMPLETED"
  | CANCELLED => "CANCELLED"
  end.

(* ---------------------------------------------------------------- *)
(** *** placeOrder *)

Record CartItem : Type := mkCartItem {
  menuItemId : string;
  quantity : number;
  specialInstructions : option string
}.

Record PlaceOrderInput : Type := mkPlaceOrderInput {
  restaurantId : string;
  items : list CartItem;
  customerName : option string;
  customerEmail : option string;
  customerPhone : option string;
  notes : option string
}.

(** [quantity: z.number().min(1)]; a NaN is no number for zod, and is
    not above 1 either.  The array itself has no minimal length.  The
    format of [customerEmail] is taken as checked. *)
Definition placeOrderValid (input : PlaceOrderInput) : bool :=
  forallb (fun item => leb (ofZ 1) (quantity item)) (items input).

Definition menuItemById (id : string) : Proc (option MenuItem) :=
  query (fun db => findFirst (fun mi => mi_id mi =? id) (menuItems db)).

(** The first loop over [input.items]. *)
Fixpoint verifyItems (restaurantId : string) (cart : list CartItem)
  : Proc unit :=
  match cart with
  | [] => ret tt
  | item :: rest =>
      menuItem <- menuItemById (menuItemId item) ;;
      match menuItem with
      | None =>
          throw NOT_FOUND ("Menu item not found: " +++ menuItemId item)
      | Some mi =>
          if negb (mi_isAvailable mi) then
            throw BAD_REQUEST
              ("Menu item is not available: " +++ mi_name mi)
          else if negb (mi_restaurantId mi =? restaurantId) then
            throw BAD_REQUEST
              ("Menu item does not belong to this restaurant: "
               +++ mi_name mi)
          else verifyItems restaurantId rest
      end
  end.

(** The second loop: [k] counts the calls of [nanoid()] so far,
    [totalAmount] and [orderItemsData] are the two variables the loop
    updates. *)
Fixpoint computeItems (env : Env) (cart : list CartItem) (k : nat)
    (totalAmount : number) (orderItemsData : list OrderItemData)
  : Proc (number * list OrderItemData) :=
  match cart with
  | [] => ret (totalAmount, orderItemsData)
  | item :: rest =>
      menuItem <- menuItemById (menuItemId item) ;;
      match menuItem with
      | None => throwOther "Cannot read properties of undefined"
      | Some mi =>
          let unitPrice := ofDecimal2 (mi_price mi) in
          let totalPrice := mul unitPrice (quantity item) in
          computeItems env rest (S k)
            (add totalAmount totalPrice)
            (orderItemsData ++
               [mkOrderItemData (nanoid env k) (menuItemId item)
                  (quantity item) unitPrice totalPrice
                  (specialInstructions item)])
      end
  end.

(** The loop over [orderItemsData] inside the [try]. *)
Fixpoint insertItems (env : Env) (orderId : string)
    (data : list OrderItemData) : Proc unit :=
  match data with
  | [] => ret tt
  | itemData :: rest =>
      _ <- insertOrderItem env itemData orderId ;;
      insertItems env orderId rest
  end.

Definition orderNumberOf (env : Env) : string :=
  "ORD-" +++ NilZero.string_of_int (Z.to_int (now env))
         +++ "-" +++ randomSuffix env.

Definition placeOrderResolver (env : Env) (ctx : Context)
    (input : PlaceOrderInput) : Proc Order :=
  restaurant <- query (fun db =>
    findFirst (fun r => r_id r =? restaurantId input) (restaurants db)) ;;
  match restaurant with
  | None => throw NOT_FOUND "Restaurant not found or not available"
  | Some r =>
      if negb (r_isActive r) then
        throw NOT_FOUND "Restaurant not found or not available"
      else
        (* menuItemsDb: read, never used *)
        _ <- query (fun db =>
               findMany (fun mi =>
                 match hd_error (map menuItemId (items input)) with
                 | Some id0 => mi_id mi =? id0
                 | None => false
                 end) (menuItems db)) ;;
        _ <- verifyItems (restaurantId input) (items input) ;;
        computed <- computeItems env (items input) 0 zero [] ;;
        let totalAmount := fst computed in
        let orderItemsData := snd computed in
        let orderNumber := orderNumberOf env in
        sessionUser ctx (fun user =>
          let newOrder :=
            mkNewOrder (nanoid env (List.length (items input))) orderNumber
              totalAmount "PENDING"
              (Some (orElse (customerName input) (u_name user)))
              (Some (orElse (customerEmail input) (u_email user)))
              (customerPhone input) (notes input)
              (restaurantId input) (u_id user) in
          tryCatch
            (createdOrder <- insertOrder env newOrder ;;
             _ <- insertItems env (o_id createdOrder) orderItemsData ;;
             ret createdOrder)
            (fun _ =>
               throw INTERNAL_SERVER_ERROR "Failed to create order"))
  end.

Definition placeOrder (env : Env) : Context -> PlaceOrderInput -> Proc Order :=
  protectedProcedure placeOrderValid (placeOrderResolver env).

(* ---------------------------------------------------------------- *)
(** *** updateStatus *)

Record UpdateStatusInput : Type := mkUpdateStatusInput {
  us_id : string;
  us_status : OrderStatus
}.

(** The object [validTransitions], keyed by the text of the current
    status; a key that is not one of the five has no entry. *)
Definition validTransitions (currentStatus : string)
  : option (list string) :=
  if currentStatus =? "PENDING" then Some ["PREPARING"; "CANCELLED"]
  else if currentStatus =? "PREPARING" then Some ["READY"; "CANCELLED"]
  else if currentStatus =? "READY" then Some ["COMPLETED"; "CANCELLED"]
  else if currentStatus =? "COMPLETED" then Some []
  else if currentStatus =? "CANCELLED" then Some []
  else None.

(** [xs.includes(x)] on strings. *)
Definition includes (xs : list string) (x : string) : bool :=
  existsb (fun y => y =? x) xs.

(** The [set] of [updateStatus]: the status, [updatedAt], and
    [actualDeliveryTime] only when the new status is COMPLETED. *)
Definition setStatus (env : Env) (newStatus : OrderStatus) (o : Order)
  : Order :=
  mkOrder (o_id o) (o_orderNumber o) (o_totalAmount o)
          (statusText newStatus)
          (o_customerName o) (o_customerEmail o) (o_customerPhone o)
          (o_notes o) (o_estimatedDeliveryTime o)
          (match newStatus with
           | COMPLETED => Some (now env)
           | _ => o_actualDeliveryTime o
           end)
          (o_restaurantId o) (o_customerId o)
          (o_createdAt o) (now env).

(** [findFirst({ where: eq(orders.id, id), with: { restaurant: true } })]:
    the order and the restaurant its [restaurantId] refers to. *)
Definition orderWithRestaurant (id : string) (db : Db)
  : option (Order * option Restaurant) :=
  match findFirst (fun o => o_id o =? id) (orders db) with
  | None => None
  | Some o =>
      Some (o, findFirst (fun r => r_id r =? o_restaurantId o)
                 (restaurants db))
  end.

Definition updateStatusResolver (env : Env) (ctx : Context)
    (input : UpdateStatusInput) : Proc (option Order) :=
  existingOrder <- query (orderWithRestaurant (us_id input)) ;;
  match existingOrder with
  | None => throw NOT_FOUND "Order not found"
  | Some (o, restaurant) =>
      match restaurant with
      | None => throwOther "Cannot read properties of null"
      | Some r =>
          sessionUser ctx (fun user =>
            if negb (r_ownerId r =? u_id user) then
              throw FORBIDDEN
                "You can only update orders for your own restaurants"
            else
              let currentStatus := o_status o in
              let newStatus := us_status input in
              match validTransitions currentStatus with
              | None => throwOther "Cannot read properties of undefined"
              | Some allowed =>
                  if negb (includes allowed (statusText newStatus)) then
                    throw BAD_REQUEST
                      ("Invalid status transition from " +++ currentStatus
                       +++ " to " +++ statusText newStatus)
                  else
                    updated <- updateOrders (us_id input)
                                 (setStatus env newStatus) ;;
                    ret (firstRow updated)
              end)
      end
  end.

Definition updateStatus (env : Env)
  : Context -> UpdateStatusInput -> Proc (option Order) :=
  ownerProcedure (fun _ => true) (updateStatusResolver env).

(* ---------------------------------------------------------------- *)
(** *** cancelOrder *)

Record CancelOrderInput : Type := mkCancelOrderInput {
  co_id : string;
  co_reason : option string
}.

(** [input.reason ? `Cancelled: ${input.reason}` : 'Cancelled by customer']. *)
Definition cancelNote (reason : option string) : string :=
  if truthy reason
  then "Cancelled: " +++ match reason with Some s => s | None => "" end
  else "Cancelled by customer".

Definition setCancelled (env : Env) (reason : option string) (o : Order)
  : Order :=
  mkOrder (o_id o) (o_orderNumber o) (o_totalAmount o) "CANCELLED"
          (o_customerName o) (o_customerEmail o) (o_customerPhone o)
          (Some (cancelNote reason))
          (o_estimatedDeliveryTime o) (o_actualDeliveryTime o)
          (o_restaurantId o) (o_customerId o)
          (o_createdAt o) (now env).

Definition cancelOrderResolver (env : Env) (ctx : Context)
    (input : CancelOrderInput) : Proc (option Order) :=
  existingOrder <- query (fun db =>
    findFirst (fun o => o_id o =? co_id input) (orders db)) ;;
  match existingOrder with
  | None => throw NOT_FOUND "Order not found"
  | Some o =>
      sessionUser ctx (fun user =>
        if negb (o_customerId o =? u_id user) then
          throw FORBIDDEN "You can only cancel your own orders"
        else if negb (o_status o =? "PENDING") then
          throw BAD_REQUEST "Only pending orders can be cancelled"
        else
          updated <- updateOrders (co_id input)
                       (setCancelled env (co_reason input)) ;;
          ret (firstRow updated))
  end.

Definition cancelOrder (env : Env)
  : Context -> CancelOrderInput -> Proc (option Order) :=
  protectedProcedure (fun _ => true) (cancelOrderResolver env).

End OrderRouter.

(* ================================================================== *)
(** ** Values returned to the client *)

(** The routers of the restaurant directory and of the assistant return
    object literals and rows with their relations; they are kept as
    objects, so that the keys of a payload can be inspected. *)
Unset Elimination Schemes.
Inductive JsVal : Type :=
| JsNull
| JsBool (b : bool)
| JsString (s : string)
| JsDecimal (hundredths : Z)
| JsDate (ms : Z)
| JsArray (elements : list JsVal)
| JsObject (fields : list (string * JsVal)).
Set Elimination Schemes.

Definition jsText (o : option string) : JsVal :=
  match o with
  | Some s => JsString s
  | None => JsNull
  end.


Fixpoint lookupField (k : string) (fields : list (string * JsVal))
  : option JsVal :=
  match fields with
  | [] => None
  | (k', v) :: rest => if k' =? k then Some v else lookupField k rest
  end.

(** [v.k], [None] when [v] has no such key. *)
Definition getField (k : string) (v : JsVal) : option JsVal :=
  match v with
  | JsObject fields => lookupField k fields
  | _ => None
  end.

(** A row as the object the query returns: one key per column. *)
Definition restaurantFields (r : Restaurant) : list (string * JsVal) :=
  [ ("id", JsString (r_id r));
    ("name", JsString (r_name r));
    ("description", jsText (r_description r));
    ("slug", JsString (r_slug r));
    ("location", jsText (r_location r));
    ("phone", jsText (r_phone r));
    ("email", jsText (r_email r));
    ("logo", jsText (r_logo r));
    ("coverImage", jsText (r_coverImage r));
    ("isActive", JsBool (r_isActive r));
    ("ownerId", JsString (r_ownerId r));
    ("createdAt", JsDate (r_createdAt r));
    ("updatedAt", JsDate (r_updatedAt r)) ].

Definition menuCategoryFields (c : MenuCategory) : list (string * JsVal) :=
  [ ("id", JsString (mc_id c));
    ("name", JsString (mc_name c));
    ("description", jsText (mc_description c));
    ("displayOrder", JsDecimal (mc_displayOrder c));
    ("restaurantId", JsString (mc_restaurantId c));
    ("createdAt", JsDate (mc_createdAt c));
    ("updatedAt", JsDate (mc_updatedAt c)) ].

Definition menuItemFields (mi : MenuItem) : list (string * JsVal) :=
  [ ("id", JsString (mi_id mi));
    ("name", JsString (mi_name mi));
    ("description", jsText (mi_description mi));
    ("price", JsDecimal (mi_price mi));
    ("image", jsText (mi_image mi));
    ("isAvailable", JsBool (mi_isAvailable mi));
    ("displayOrder", JsDecimal (mi_displayOrder mi));
    ("category", jsText (mi_category mi));
    ("ingredients", jsText (mi_ingredients mi));
    ("preparationTime", jsText (mi_preparationTime mi));
    ("categoryId", JsString (mi_categoryId mi));
    ("restaurantId", JsString (mi_restaurantId mi));
    ("createdAt", JsDate (mi_createdAt mi));
    ("updatedAt", JsDate (mi_updatedAt mi)) ].

(* ================================================================== *)
(** ** Relations and ordering *)

(** [orderBy: column] on a [decimal] column: ascending, rows with equal
    keys in insertion order. *)
Fixpoint insertBy {A : Type} (key : A -> Z) (x : A) (sorted : list A)
  : list A :=
  match sorted with
  | [] => [x]
  | y :: rest =>
      if (key x <=? key y)%Z then x :: sorted
      else y :: insertBy key x rest
  end.

Definition orderBy {A : Type} (key : A -> Z) (rows : list A) : list A :=
  fold_right (insertBy key) [] rows.


Record CategoryWithItems : Type := mkCategoryWithItems {
  cw_category : MenuCategory;
  cw_menuItems : list MenuItem
}.

Record RestaurantWithMenu : Type := mkRestaurantWithMenu {
  rw_restaurant : Restaurant;
  rw_menuCategories : list CategoryWithItems
}.

(** [with: { menuCategories: { with: { menuItems: { where, orderBy } },
    orderBy } }].  The schema file declares no [relations]; a relation
    follows the foreign key the schema declares ([menu_categories.
    restaurant_id], [menu_items.category_id]).  [ordered] tells whether the
    query gives the two [orderBy: displayOrder]. *)
Definition menuOf (itemWhere : MenuItem -> bool) (ordered : bool)
    (r : Restaurant) (db : Db) : RestaurantWithMenu :=
  let sortC := if ordered then orderBy mc_displayOrder else (fun l => l) in
  let sortI := if ordered then orderBy mi_displayOrder else (fun l => l) in
  mkRestaurantWithMenu r
    (map (fun c =>
            mkCategoryWithItems c
              (sortI (findMany (fun mi =>
                                  (mi_categoryId mi =? mc_id c)
                                  && itemWhere mi) (menuItems db))))
         (sortC (findMany (fun c => mc_restaurantId c =? r_id r)
                          (menuCategories db)))).

Definition categoryWithItemsJs (cw : CategoryWithItems) : JsVal :=
  JsObject (menuCategoryFields (cw_category cw)
            ++ [("menuItems",
                 JsArray (map (fun mi => JsObject (menuItemFields mi))
                              (cw_menuItems cw)))]).

Definition restaurantWithMenuJs (rw : RestaurantWithMenu) : JsVal :=
  JsObject (restaurantFields (rw_restaurant rw)
            ++ [("menuCategories",
                 JsArray (map categoryWithItemsJs (rw_menuCategories rw)))]).

(* ================================================================== *)
(** ** The restaurant router ([src/lib/trpc/routers/restaurant.ts]) *)

Module RestaurantRouter.







(** The object literals of the branch of [getById] for callers who are
    not the owner. *)
Definition limitedItem (item : MenuItem) : JsVal :=
  JsObject
    [ ("id", JsString (mi_id item));
      ("name", JsString (mi_name item));
      ("description", jsText (mi_description item));
      ("price", JsDecimal (mi_price item));
      ("image", jsText (mi_image item));
      ("displayOrder", JsDecimal (mi_displayOrder item)) ].

Definition limitedCategory (cw : CategoryWithItems) : JsVal :=
  let category := cw_category cw in
  JsObject
    [ ("id", JsString (mc_id category));
      ("name", JsString (mc_name category));
      ("description", jsText (mc_description category));
      ("displayOrder", JsDecimal (mc_displayOrder category));
      ("menuItems",
       JsArray (map limitedItem
                    (filter mi_isAvailable (cw_menuItems cw)))) ].

Definition limitedRestaurant (rw : RestaurantWithMenu) : JsVal :=
  let restaurant := rw_restaurant rw in
  JsObject
    [ ("id", JsString (r_id restaurant));
      ("name", JsString (r_name restaurant));
      ("description", jsText (r_description restaurant));
      ("slug", JsString (r_slug restaurant));
      ("location", jsText (r_location restaurant));
      ("logo", jsText (r_logo restaurant));
      ("coverImage", jsText (r_coverImage restaurant));
      ("isActive", JsBool (r_isActive restaurant));
      ("menuCategories",
       JsArray (map limitedCategory (rw_menuCategories rw))) ].

Definition getByIdResolver (ctx : Context) (id : string) : Proc JsVal :=
  restaurant <- query (fun db =>
    option_map (fun r => menuOf (fun _ => true) true r db)
      (findFirst (fun r => r_id r =? id) (restaurants db))) ;;
  match restaurant with
  | None => throw NOT_FOUND "Restaurant not found"
  | Some rw =>
      sessionUser ctx (fun user =>
        if negb (r_ownerId (rw_restaurant rw) =? u_id user)
        then ret (limitedRestaurant rw)
        else ret (restaurantWithMenuJs rw))
  end.

Definition getById : Context -> string -> Proc JsVal :=
  protectedProcedure (fun _ => true) getByIdResolver.

End RestaurantRouter.

(* ================================================================== *)
(** ** The assistant router ([aiRouter], second part of
       [src/lib/trpc/routers/order.ts]) *)

Module AiRouter.


















End AiRouter.

(* ================================================================== *)
(** ** Notions used to state the properties *)

Import OrderRouter.

(** The identity of the caller, if any. *)
Definition identity (ctx : Context) : option User :=
  match ctx_session ctx with
  | Some s => s_user s
  | None => None
  end.

(** The context of a request made by [u]. *)
Definition signedIn (u : User) : Context :=
  mkContext (Some (mkSession (Some u))).

(** The context of a request with no session. *)
Definition anonymous : Context := mkContext None.


(** The three checks of [placeOrder] on one entry of the cart. *)
Definition itemAcceptable (db : Db) (restaurantId : string) (item : CartItem)
  : bool :=
  match findFirst (fun mi => mi_id mi =? menuItemId item) (menuItems db) with
  | Some mi => mi_isAvailable mi && (mi_restaurantId mi =? restaurantId)
  | None => false
  end.

(** The current price of a menu item, in hundredths. *)
Definition priceOf (db : Db) (id : string) : Z :=
  match findFirst (fun mi => mi_id mi =? id) (menuItems db) with
  | Some mi => mi_price mi
  | None => 0%Z
  end.

(** [Number(price) * quantity] in binary64. *)
Definition floatLineTotal (db : Db) (item : CartItem) : number :=
  mul (ofDecimal2 (priceOf db (menuItemId item))) (quantity item).

(** The binary64 sum of the line totals, accumulated in cart order. *)
Definition floatTotal (db : Db) (cart : list CartItem) : number :=
  JsNumber.sum (map (floatLineTotal db) cart).



(** The element of [orderItemsData] for the [k]-th entry of the cart. *)
Definition lineData (env : Env) (db : Db) (k : nat) (item : CartItem)
  : OrderItemData :=
  mkOrderItemData (nanoid env k) (menuItemId item) (quantity item)
    (ofDecimal2 (priceOf db (menuItemId item)))
    (floatLineTotal db item)
    (specialInstructions item).

Fixpoint cartData (env : Env) (db : Db) (k : nat) (cart : list CartItem)
  : list OrderItemData :=
  match cart with
  | [] => []
  | item :: rest => lineData env db k item :: cartData env db (S k) rest
  end.

(** The error of the first entry of the cart that fails a check. *)
Fixpoint firstOffence (db : Db) (restaurantId : string) (cart : list CartItem)
  : option TRPCError :=
  match cart with
  | [] => None
  | item :: rest =>
      match findFirst (fun mi => mi_id mi =? menuItemId item) (menuItems db)
      with
      | None =>
          Some (mkTRPCError NOT_FOUND
                  ("Menu item not found: " +++ menuItemId item))
      | Some mi =>
          if negb (mi_isAvailable mi) then
            Some (mkTRPCError BAD_REQUEST
                    ("Menu item is not available: " +++ mi_name mi))
          else if negb (mi_restaurantId mi =? restaurantId) then
            Some (mkTRPCError BAD_REQUEST
                    ("Menu item does not belong to this restaurant: "
                     +++ mi_name mi))
          else firstOffence db restaurantId rest
      end
  end.

(** The object [newOrder] of a call that passed the checks. *)
Definition newOrderOf (env : Env) (u : User) (input : PlaceOrderInput)
    (db : Db) : NewOrder :=
  mkNewOrder (nanoid env (List.length (items input))) (orderNumberOf env)
    (floatTotal db (items input)) "PENDING"
    (Some (orElse (customerName input) (u_name u)))
    (Some (orElse (customerEmail input) (u_email u)))
    (customerPhone input) (notes input)
    (restaurantId input) (u_id u).


(** The item rows of an order. *)
Definition orderItemsOf (orderId : string) (db : Db) : list OrderItem :=
  findMany (fun oi => oi_orderId oi =? orderId) (orderItems db).

(** Every item row refers to an order row: the foreign key of
    [order_items.order_id]. *)
Definition itemsReferToOrders (db : Db) : Prop :=
  forall oi, In oi (orderItems db) -> hasId o_id (oi_orderId oi) (orders db) = true.

(* ================================================================== *)
(** ** A small restaurant, used for the concrete runs *)

Module Scenario.

Definition alice : User :=
  mkUser "u-alice" "Alice" "alice@example.com" None.

Definition olga : User :=
  mkUser "u-olga" "Olga" "olga@example.com" (Some "OWNER").

Definition cafe : Restaurant :=
  mkRestaurant "r1" "Cafe One" None "cafe1" None (Some "555-0100")
    (Some "olga@example.com") None None true "u-olga" 0 0.

Definition closedCafe : Restaurant :=
  mkRestaurant "r2" "Closed Cafe" None "closed" None None None None None
    false "u-olga" 1 1.

Definition mains : MenuCategory :=
  mkMenuCategory "c1" "Mains" None 0 "r1" 0 0.

Definition burger : MenuItem :=
  mkMenuItem "m1" "Burger" None 999 None true 0 None None None
    "c1" "r1" 0 0.

Definition water : MenuItem :=
  mkMenuItem "m2" "Tap water" None 0 None true 100 None None None
    "c1" "r1" 0 0.

Definition sweet : MenuItem :=
  mkMenuItem "m3" "Penny sweet" None 1 None true 200 None None None
    "c1" "r1" 0 0.

Definition soup : MenuItem :=
  mkMenuItem "m4" "Soup of yesterday" None 450 None false 300 None None
    None "c1" "r1" 0 0.

Definition db0 : Db :=
  mkDb [cafe; closedCafe] [mains] [burger; water; sweet; soup] [] [].

Definition env0 : Env :=
  mkEnv (fun k => "id" +++ NilZero.string_of_uint (Nat.to_uint k))
        1730000000000 "ABCDEFGHI".

Definition cartOf (entries : list CartItem) : PlaceOrderInput :=
  mkPlaceOrderInput "r1" entries None None None None.

(** Two burgers. *)
Definition twoBurgers : PlaceOrderInput :=
  cartOf [mkCartItem "m1" (ofZ 2) None].

(** A hundred million glasses of tap water, at 0.00 each. *)
Definition bulkWater : PlaceOrderInput :=
  cartOf [mkCartItem "m2" (ofZ 100000000) None].



(** An order of Alice that carries a note. *)
Definition notedOrder : Order :=
  mkOrder "o1" "ORD-1-AAAAAAAAA" (ofDecimal2 999) "PENDING"
    (Some "Alice") (Some "alice@example.com") None (Some "No onions")
    None None "r1" "u-alice" 5 5.

Definition db1 : Db :=
  mkDb [cafe; closedCafe] [mains] [burger; water; sweet; soup]
       [notedOrder] [].


End Scenario.

(* ================================================================== *)
(** ** What the platform provides to the other procedures *)

(** The columns of the [user] table that the routers select.  The table
    belongs to the authentication schema, which is not part of these
    sources. *)
Record UserRow : Type := mkUserRow {
  ur_id : string;
  ur_name : string;
  ur_email : string;
  ur_phone : option string
}.

(** What the remaining procedures take from outside the routers: the value
    that a [decimal(10, 2)] column keeps of a number that fits it (in
    hundredths), the two format checks of zod, and the [user] table. *)
Record Platform : Type := mkPlatform {
  toDecimal : number -> Z;
  isEmail : string -> bool;
  isUrl : string -> bool;
  userTable : list UserRow
}.

(** The number of characters of a text kept as UTF-8: the bytes that are
    not continuation bytes. *)
Fixpoint charLength (s : string) : nat :=
  match s with
  | EmptyString => 0
  | String c rest =>
      let n := nat_of_ascii c in
      if (128 <=? n)%nat && (n <? 192)%nat
      then charLength rest
      else S (charLength rest)
  end.

(** [z.number()] refuses NaN. *)
Definition isNumber (x : number) : bool :=
  match x with
  | S754_nan => false
  | _ => true
  end.

(** [z.string().min(1)]. *)
Definition nonEmpty (s : string) : bool := negb (s =? "").

(** An optional, formatted field of an input. *)
Definition optionally (check : string -> bool) (o : option string) : bool :=
  match o with
  | Some s => check s
  | None => true
  end.

(** [{ ...row, field: value }] in a [set] where [value] may be undefined:
    an undefined value leaves the column as it is. *)
Definition orKeep {A : Type} (value : option A) (old : A) : A :=
  match value with
  | Some v => v
  | None => old
  end.

Definition orKeepText (value : option string) (old : option string)
  : option string :=
  match value with
  | Some v => Some v
  | None => old
  end.

Definition inIds (id : string) (ids : list string) : bool :=
  existsb (fun id' => id' =? id) ids.

Definition successPayload (msg : string) : JsVal :=
  JsObject [ ("success", JsBool true); ("message", JsString msg) ].

(* ------------------------------------------------------------------ *)
(** *** Deletes, with the [onDelete: "cascade"] of the schema *)

(** [delete(orders).where(p)]: the item rows of a deleted order go with
    it ([order_items.order_id]). *)
Definition deleteOrders (p : Order -> bool) (db : Db) : Db :=
  let gone := map o_id (filter p (orders db)) in
  mkDb (restaurants db) (menuCategories db) (menuItems db)
       (filter (fun o => negb (p o)) (orders db))
       (filter (fun oi => negb (inIds (oi_orderId oi) gone)) (orderItems db)).

(** [delete(menuItems).where(p)]: the item rows of orders that refer to a
    deleted menu item go with it ([order_items.menu_item_id]). *)
Definition deleteMenuItems (p : MenuItem -> bool) (db : Db) : Db :=
  let gone := map mi_id (filter p (menuItems db)) in
  mkDb (restaurants db) (menuCategories db)
       (filter (fun mi => negb (p mi)) (menuItems db))
       (orders db)
       (filter (fun oi => negb (inIds (oi_menuItemId oi) gone))
               (orderItems db)).

(** [delete(menuCategories).where(p)]: the menu items of a deleted
    category go with it ([menu_items.category_id]), and so on. *)
Definition deleteMenuCategories (p : MenuCategory -> bool) (db : Db) : Db :=
  let gone := map mc_id (filter p (menuCategories db)) in
  let db1 := deleteMenuItems (fun mi => inIds (mi_categoryId mi) gone) db in
  mkDb (restaurants db1)
       (filter (fun c => negb (p c)) (menuCategories db1))
       (menuItems db1) (orders db1) (orderItems db1).

(** [delete(restaurants).where(p)]: categories, menu items and orders of a
    deleted restaurant go with it ([restaurant_id] of the three tables),
    and so on. *)
Definition deleteRestaurants (p : Restaurant -> bool) (db : Db) : Db :=
  let gone := map r_id (filter p (restaurants db)) in
  let db1 := deleteOrders (fun o => inIds (o_restaurantId o) gone) db in
  let db2 := deleteMenuItems (fun mi => inIds (mi_restaurantId mi) gone) db1 in
  let db3 :=
    deleteMenuCategories (fun c => inIds (mc_restaurantId c) gone) db2 in
  mkDb (filter (fun r => negb (p r)) (restaurants db3))
       (menuCategories db3) (menuItems db3) (orders db3) (orderItems db3).

(* ------------------------------------------------------------------ *)
(** *** Inserts and updates of the directory and of the menu *)

(** Primary key, [unique] and [varchar(255)] on the slug. *)
Definition restaurantAccepted (db : Db) (row : Restaurant) : bool :=
  negb (hasId r_id (r_id row) (restaurants db))
  && negb (hasId r_slug (r_slug row) (restaurants db))
  && (charLength (r_slug row) <=? 255)%nat.

Definition insertRestaurant (row : Restaurant) : Proc Restaurant :=
  fun db =>
    if restaurantAccepted db row
    then (Ok row,
          mkDb (restaurants db ++ [row]) (menuCategories db) (menuItems db)
               (orders db) (orderItems db))
    else (Err (mkTRPCError INTERNAL_SERVER_ERROR
                 "insert into restaurants failed"), db).

(** An update of the rows with the given id is refused when a rewritten
    row would carry a slug that is too long or that another restaurant
    carries. *)
Definition restaurantUpdateAccepted (db : Db) (id : string)
    (set : Restaurant -> Restaurant) : bool :=
  forallb (fun r =>
             if r_id r =? id then
               (charLength (r_slug (set r)) <=? 255)%nat
               && negb (existsb (fun r' => negb (r_id r' =? id)
                                           && (r_slug r' =? r_slug (set r)))
                                (restaurants db))
             else true)
          (restaurants db).

Definition updateRestaurants (id : string) (set : Restaurant -> Restaurant)
  : Proc (list Restaurant) :=
  fun db =>
    if restaurantUpdateAccepted db id set
    then (Ok (map set (findMany (fun r => r_id r =? id) (restaurants db))),
          mkDb (map (fun r => if r_id r =? id then set r else r)
                    (restaurants db))
               (menuCategories db) (menuItems db) (orders db)
               (orderItems db))
    else (Err (mkTRPCError INTERNAL_SERVER_ERROR
                 "update of restaurants failed"), db).

(** Primary key and the foreign key to [restaurants]; the display order
    must fit its column. *)
Definition categoryAccepted (db : Db) (displayOrder : number)
    (row : MenuCategory) : bool :=
  negb (hasId mc_id (mc_id row) (menuCategories db))
  && fits_numeric_10_2 displayOrder
  && hasId r_id (mc_restaurantId row) (restaurants db).

Definition insertMenuCategory (displayOrder : number) (row : MenuCategory)
  : Proc MenuCategory :=
  fun db =>
    if categoryAccepted db displayOrder row
    then (Ok row,
          mkDb (restaurants db) (menuCategories db ++ [row]) (menuItems db)
               (orders db) (orderItems db))
    else (Err (mkTRPCError INTERNAL_SERVER_ERROR
                 "insert into menu_categories failed"), db).

Definition updateMenuCategories (id : string) (displayOrder : number)
    (set : MenuCategory -> MenuCategory) : Proc (list MenuCategory) :=
  fun db =>
    if fits_numeric_10_2 displayOrder
    then (Ok (map set (findMany (fun c => mc_id c =? id)
                                (menuCategories db))),
          mkDb (restaurants db)
               (map (fun c => if mc_id c =? id then set c else c)
                    (menuCategories db))
               (menuItems db) (orders db) (orderItems db))
    else (Err (mkTRPCError INTERNAL_SERVER_ERROR
                 "update of menu_categories failed"), db).

(** Primary key, the two foreign keys, and the two decimal columns. *)
Definition menuItemAccepted (db : Db) (price displayOrder : number)
    (row : MenuItem) : bool :=
  negb (hasId mi_id (mi_id row) (menuItems db))
  && fits_numeric_10_2 price
  && fits_numeric_10_2 displayOrder
  && hasId mc_id (mi_categoryId row) (menuCategories db)
  && hasId r_id (mi_restaurantId row) (restaurants db).

Definition insertMenuItem (price displayOrder : number) (row : MenuItem)
  : Proc MenuItem :=
  fun db =>
    if menuItemAccepted db price displayOrder row
    then (Ok row,
          mkDb (restaurants db) (menuCategories db) (menuItems db ++ [row])
               (orders db) (orderItems db))
    else (Err (mkTRPCError INTERNAL_SERVER_ERROR
                 "insert into menu_items failed"), db).

(** An update of menu items: [numbers] are the numbers written to decimal
    columns, [categoryId] the category written, if one is. *)
Definition updateMenuItems (id : string) (numbers : list number)
    (categoryId : option string) (set : MenuItem -> MenuItem)
  : Proc (list MenuItem) :=
  fun db =>
    if forallb fits_numeric_10_2 numbers
       && match categoryId with
          | Some c => hasId mc_id c (menuCategories db)
          | None => true
          end
    then (Ok (map set (findMany (fun mi => mi_id mi =? id) (menuItems db))),
          mkDb (restaurants db) (menuCategories db)
               (map (fun mi => if mi_id mi =? id then set mi else mi)
                    (menuItems db))
               (orders db) (orderItems db))
    else (Err (mkTRPCError INTERNAL_SERVER_ERROR
                 "update of menu_items failed"), db).

(** A write that cannot fail, as a procedure. *)
Definition write (f : Db -> Db) : Proc unit := fun db => (Ok tt, f db).

(* ================================================================== *)
(** ** The order router: the three queries
       ([getById], [getMyOrders], [getOrdersForRestaurant]) *)

Module OrderQueries.

Record OrderItemWithMenuItem : Type := mkOrderItemWithMenuItem {
  oiw_item : OrderItem;
  oiw_menuItem : option JsVal
}.

(** An order with the relations a query asked for; a relation is [None]
    when the query does not ask for it or when the row it refers to is
    missing. *)
Record OrderWithRelations : Type := mkOrderWithRelations {
  owr_order : Order;
  owr_orderItems : list OrderItemWithMenuItem;
  owr_restaurant : option JsVal;
  owr_customer : option JsVal
}.

(** [restaurant: { columns: { id: true, name: true, location: true } }]. *)
Definition restaurantBrief (r : Restaurant) : JsVal :=
  JsObject
    [ ("id", JsString (r_id r));
      ("name", JsString (r_name r));
      ("location", jsText (r_location r)) ].


(** [customer: { columns: { id: true, name: true, email: true } }], with
    the phone when [phone: true] is asked for as well. *)
Definition customerBrief (withPhone : bool) (c : UserRow) : JsVal :=
  JsObject
    ([ ("id", JsString (ur_id c));
       ("name", JsString (ur_name c));
       ("email", JsString (ur_email c)) ]
     ++ (if withPhone then [("phone", jsText (ur_phone c))] else [])).

(** [orderItems: { with: { menuItem } }]: the item rows of the order, each
    with the menu item its [menuItemId] refers to. *)
Definition itemsWithMenuItem (menuItemJs : MenuItem -> JsVal) (o : Order)
    (db : Db) : list OrderItemWithMenuItem :=
  map (fun oi =>
         mkOrderItemWithMenuItem oi
           (option_map menuItemJs
              (findFirst (fun mi => mi_id mi =? oi_menuItemId oi)
                         (menuItems db))))
      (findMany (fun oi => oi_orderId oi =? o_id o) (orderItems db)).

Definition restaurantOf (o : Order) (db : Db) : option JsVal :=
  option_map restaurantBrief
    (findFirst (fun r => r_id r =? o_restaurantId o) (restaurants db)).

Definition customerOf (pf : Platform) (withPhone : bool) (o : Order)
  : option JsVal :=
  option_map (customerBrief withPhone)
    (findFirst (fun c => ur_id c =? o_customerId o) (userTable pf)).

(** [a === b] where [a] is a field read from an object and [b] a string:
    a field that is not there is undefined, and never equal. *)
Definition fieldIs (a : option JsVal) (b : string) : bool :=
  match a with
  | Some (JsString s) => s =? b
  | _ => false
  end.

(* ---------------------------------------------------------------- *)
(** *** getById *)

Definition getByIdResolver (pf : Platform) (ctx : Context) (id : string)
  : Proc OrderWithRelations :=
  order <- query (fun db =>
    option_map (fun o =>
                  mkOrderWithRelations o
                    (itemsWithMenuItem (fun mi => JsObject (menuItemFields mi))
                       o db)
                    (restaurantOf o db)
                    (customerOf pf false o))
      (findFirst (fun o => o_id o =? id) (orders db))) ;;
  match order with
  | None => throw NOT_FOUND "Order not found"
  | Some order =>
      sessionUser ctx (fun user =>
        let isCustomer := o_customerId (owr_order order) =? u_id user in
        match owr_restaurant order with
        | None => throwOther "Cannot read properties of null"
        | Some restaurant =>
            let isOwner := fieldIs (getField "ownerId" restaurant) (u_id user) in
            if negb isCustomer && negb isOwner then
              throw FORBIDDEN "You can only view your own orders"
            else ret order
        end)
  end.

Definition getById (pf : Platform)
  : Context -> string -> Proc OrderWithRelations :=
  protectedProcedure (fun _ => true) (getByIdResolver pf).

(* ---------------------------------------------------------------- *)
(** *** getMyOrders and getOrdersForRestaurant *)









End OrderQueries.

(* ================================================================== *)
(** ** The restaurant router: the owner-only procedures
       ([create], [update], [delete], [getMyRestaurants]) *)

Module RestaurantOwner.

Record CreateInput : Type := mkCreateInput {
  c_name : string;
  c_description : option string;
  c_slug : string;
  c_location : option string;
  c_phone : option string;
  c_email : option string;
  c_logo : option string;
  c_coverImage : option string
}.

Definition createValid (pf : Platform) (input : CreateInput) : bool :=
  nonEmpty (c_name input)
  && nonEmpty (c_slug input)
  && optionally (isEmail pf) (c_email input)
  && optionally (isUrl pf) (c_logo input)
  && optionally (isUrl pf) (c_coverImage input).

(** [{ id: nanoid(), ...input, ownerId, isActive: true }] as a row. *)
Definition newRestaurant (env : Env) (user : User) (input : CreateInput)
  : Restaurant :=
  mkRestaurant (nanoid env 0) (c_name input) (c_description input)
    (c_slug input) (c_location input) (c_phone input) (c_email input)
    (c_logo input) (c_coverImage input) true (u_id user)
    (now env) (now env).

Definition createResolver (env : Env) (ctx : Context) (input : CreateInput)
  : Proc Restaurant :=
  existingRestaurant <- query (fun db =>
    findFirst (fun r => r_slug r =? c_slug input) (restaurants db)) ;;
  match existingRestaurant with
  | Some _ =>
      throw CONFLICT "A restaurant with this slug already exists"
  | None =>
      sessionUser ctx (fun user =>
        insertRestaurant (newRestaurant env user input))
  end.

Definition create (pf : Platform) (env : Env)
  : Context -> CreateInput -> Proc Restaurant :=
  ownerProcedure (createValid pf) (createResolver env).

Record UpdateInput : Type := mkUpdateInput {
  up_id : string;
  up_name : string;
  up_description : option string;
  up_slug : string;
  up_location : option string;
  up_phone : option string;
  up_email : option string;
  up_logo : option string;
  up_coverImage : option string;
  up_isActive : option bool
}.

Definition updateValid (pf : Platform) (input : UpdateInput) : bool :=
  nonEmpty (up_name input)
  && nonEmpty (up_slug input)
  && optionally (isEmail pf) (up_email input)
  && optionally (isUrl pf) (up_logo input)
  && optionally (isUrl pf) (up_coverImage input).

(** [set({ ...updateData, updatedAt: new Date() })]. *)
Definition setRestaurant (env : Env) (input : UpdateInput) (r : Restaurant)
  : Restaurant :=
  mkRestaurant (r_id r) (up_name input)
    (orKeepText (up_description input) (r_description r))
    (up_slug input)
    (orKeepText (up_location input) (r_location r))
    (orKeepText (up_phone input) (r_phone r))
    (orKeepText (up_email input) (r_email r))
    (orKeepText (up_logo input) (r_logo r))
    (orKeepText (up_coverImage input) (r_coverImage r))
    (orKeep (up_isActive input) (r_isActive r))
    (r_ownerId r) (r_createdAt r) (now env).

(** [and(eq(restaurants.slug, input.slug), restaurants.id !== input.id)]:
    the second argument compares the column object with a string in
    JavaScript, before the query is built, and is [true]. *)
Definition slugConflictWhere (input : UpdateInput) (r : Restaurant) : bool :=
  (r_slug r =? up_slug input) && true.

Definition updateResolver (env : Env) (ctx : Context) (input : UpdateInput)
  : Proc (option Restaurant) :=
  existingRestaurant <- query (fun db =>
    findFirst (fun r => r_id r =? up_id input) (restaurants db)) ;;
  match existingRestaurant with
  | None => throw NOT_FOUND "Restaurant not found"
  | Some existing =>
      sessionUser ctx (fun user =>
        if negb (r_ownerId existing =? u_id user) then
          throw FORBIDDEN "You can only update your own restaurants"
        else
          _ <- (if negb (up_slug input =? r_slug existing) then
                  slugConflict <- query (fun db =>
                    findFirst (slugConflictWhere input) (restaurants db)) ;;
                  match slugConflict with
                  | Some _ =>
                      throw CONFLICT
                        "A restaurant with this slug already exists"
                  | None => ret tt
                  end
                else ret tt) ;;
          updated <- updateRestaurants (up_id input)
                       (setRestaurant env input) ;;
          ret (firstRow updated))
  end.

Definition update (pf : Platform) (env : Env)
  : Context -> UpdateInput -> Proc (option Restaurant) :=
  ownerProcedure (updateValid pf) (updateResolver env).

Definition deleteResolver (ctx : Context) (id : string) : Proc JsVal :=
  existingRestaurant <- query (fun db =>
    findFirst (fun r => r_id r =? id) (restaurants db)) ;;
  match existingRestaurant with
  | None => throw NOT_FOUND "Restaurant not found"
  | Some existing =>
      sessionUser ctx (fun user =>
        if negb (r_ownerId existing =? u_id user) then
          throw FORBIDDEN "You can only delete your own restaurants"
        else
          _ <- write (deleteRestaurants (fun r => r_id r =? id)) ;;
          ret (successPayload "Restaurant deleted successfully"))
  end.

Definition delete : Context -> string -> Proc JsVal :=
  ownerProcedure (fun _ => true) deleteResolver.



End RestaurantOwner.

(* ================================================================== *)
(** ** The menu router ([src/lib/trpc/routers/menu.ts]) *)

Module MenuRouter.

(** [findFirst({ where: eq(id), with: { restaurant: true } })] on
    categories and on menu items. *)
Definition categoryWithRestaurant (id : string) (db : Db)
  : option (MenuCategory * option Restaurant) :=
  option_map (fun c =>
                (c, findFirst (fun r => r_id r =? mc_restaurantId c)
                      (restaurants db)))
    (findFirst (fun c => mc_id c =? id) (menuCategories db)).

Definition itemWithRestaurant (id : string) (db : Db)
  : option (MenuItem * option Restaurant) :=
  option_map (fun mi =>
                (mi, findFirst (fun r => r_id r =? mi_restaurantId mi)
                       (restaurants db)))
    (findFirst (fun mi => mi_id mi =? id) (menuItems db)).

(** The check that the three category procedures and the four item
    procedures share: the row exists, and its restaurant is the
    caller's. *)
Definition owned {A B : Type} (ctx : Context)
    (found : option (A * option Restaurant))
    (missing forbidden : string) (k : A -> Proc B) : Proc B :=
  match found with
  | None => throw NOT_FOUND missing
  | Some (row, restaurant) =>
      match restaurant with
      | None => throwOther "Cannot read properties of null"
      | Some r =>
          sessionUser ctx (fun user =>
            if negb (r_ownerId r =? u_id user) then throw FORBIDDEN forbidden
            else k row)
      end
  end.

(* ---------------------------------------------------------------- *)
(** *** Categories *)

Record CreateCategoryInput : Type := mkCreateCategoryInput {
  cc_name : string;
  cc_description : option string;
  cc_displayOrder : number;
  cc_restaurantId : string
}.

Definition createCategoryResolver (pf : Platform) (env : Env)
    (ctx : Context) (input : CreateCategoryInput) : Proc MenuCategory :=
  restaurant <- query (fun db =>
    findFirst (fun r => r_id r =? cc_restaurantId input) (restaurants db)) ;;
  match restaurant with
  | None => throw NOT_FOUND "Restaurant not found"
  | Some r =>
      sessionUser ctx (fun user =>
        if negb (r_ownerId r =? u_id user) then
          throw FORBIDDEN
            "You can only add categories to your own restaurants"
        else
          insertMenuCategory (cc_displayOrder input)
            (mkMenuCategory (nanoid env 0) (cc_name input)
               (cc_description input)
               (toDecimal pf (cc_displayOrder input))
               (cc_restaurantId input) (now env) (now env)))
  end.

(** [name: min(1)], [displayOrder: z.number()]. *)
Definition createCategoryValid (input : CreateCategoryInput) : bool :=
  nonEmpty (cc_name input) && isNumber (cc_displayOrder input).

Definition createCategory (pf : Platform) (env : Env)
  : Context -> CreateCategoryInput -> Proc MenuCategory :=
  ownerProcedure createCategoryValid (createCategoryResolver pf env).

Record UpdateCategoryInput : Type := mkUpdateCategoryInput {
  uc_id : string;
  uc_name : string;
  uc_description : option string;
  uc_displayOrder : number
}.

Definition setCategory (pf : Platform) (env : Env)
    (input : UpdateCategoryInput) (c : MenuCategory) : MenuCategory :=
  mkMenuCategory (mc_id c) (uc_name input)
    (orKeepText (uc_description input) (mc_description c))
    (toDecimal pf (uc_displayOrder input))
    (mc_restaurantId c) (mc_createdAt c) (now env).

Definition updateCategoryResolver (pf : Platform) (env : Env)
    (ctx : Context) (input : UpdateCategoryInput)
  : Proc (option MenuCategory) :=
  existingCategory <- query (categoryWithRestaurant (uc_id input)) ;;
  owned ctx existingCategory "Category not found"
    "You can only update categories in your own restaurants"
    (fun _ =>
       updated <- updateMenuCategories (uc_id input) (uc_displayOrder input)
                    (setCategory pf env input) ;;
       ret (firstRow updated)).

Definition updateCategoryValid (input : UpdateCategoryInput) : bool :=
  nonEmpty (uc_name input) && isNumber (uc_displayOrder input).

Definition updateCategory (pf : Platform) (env : Env)
  : Context -> UpdateCategoryInput -> Proc (option MenuCategory) :=
  ownerProcedure updateCategoryValid (updateCategoryResolver pf env).

Definition deleteCategoryResolver (ctx : Context) (id : string)
  : Proc JsVal :=
  existingCategory <- query (categoryWithRestaurant id) ;;
  owned ctx existingCategory "Category not found"
    "You can only delete categories in your own restaurants"
    (fun _ =>
       _ <- write (deleteMenuCategories (fun c => mc_id c =? id)) ;;
       ret (successPayload "Category deleted successfully")).

Definition deleteCategory : Context -> string -> Proc JsVal :=
  ownerProcedure (fun _ => true) deleteCategoryResolver.

(* ---------------------------------------------------------------- *)
(** *** Menu items *)

(** The input of [createItem], after zod has put the defaults
    ([isAvailable] true, [displayOrder] 0). *)
Record CreateItemInput : Type := mkCreateItemInput {
  ci_name : string;
  ci_description : option string;
  ci_price : number;
  ci_image : option string;
  ci_isAvailable : bool;
  ci_displayOrder : number;
  ci_category : option string;
  ci_ingredients : option string;
  ci_preparationTime : option string;
  ci_categoryId : string;
  ci_restaurantId : string
}.

(** [name: min(1)], [price: z.number().min(0)], [image: url()],
    [displayOrder: z.number()]. *)
Definition createItemValid (pf : Platform) (input : CreateItemInput) : bool :=
  nonEmpty (ci_name input)
  && leb zero (ci_price input)
  && optionally (isUrl pf) (ci_image input)
  && isNumber (ci_displayOrder input).

Definition newItem (pf : Platform) (env : Env) (input : CreateItemInput)
  : MenuItem :=
  mkMenuItem (nanoid env 0) (ci_name input) (ci_description input)
    (toDecimal pf (ci_price input)) (ci_image input) (ci_isAvailable input)
    (toDecimal pf (ci_displayOrder input)) (ci_category input)
    (ci_ingredients input) (ci_preparationTime input)
    (ci_categoryId input) (ci_restaurantId input) (now env) (now env).

Definition createItemResolver (pf : Platform) (env : Env) (ctx : Context)
    (input : CreateItemInput) : Proc MenuItem :=
  restaurant <- query (fun db =>
    findFirst (fun r => r_id r =? ci_restaurantId input) (restaurants db)) ;;
  match restaurant with
  | None => throw NOT_FOUND "Restaurant not found"
  | Some r =>
      sessionUser ctx (fun user =>
        if negb (r_ownerId r =? u_id user) then
          throw FORBIDDEN "You can only add items to your own restaurants"
        else
          category <- query (fun db =>
            findFirst (fun c => mc_id c =? ci_categoryId input)
                      (menuCategories db)) ;;
          match category with
          | None => throw BAD_REQUEST "Invalid category for this restaurant"
          | Some c =>
              if negb (mc_restaurantId c =? ci_restaurantId input) then
                throw BAD_REQUEST "Invalid category for this restaurant"
              else
                insertMenuItem (ci_price input) (ci_displayOrder input)
                  (newItem pf env input)
          end)
  end.

Definition createItem (pf : Platform) (env : Env)
  : Context -> CreateItemInput -> Proc MenuItem :=
  ownerProcedure (createItemValid pf) (createItemResolver pf env).

Record UpdateItemInput : Type := mkUpdateItemInput {
  ui_id : string;
  ui_name : string;
  ui_description : option string;
  ui_price : number;
  ui_image : option string;
  ui_isAvailable : bool;
  ui_displayOrder : number;
  ui_category : option string;
  ui_ingredients : option string;
  ui_preparationTime : option string;
  ui_categoryId : string
}.

Definition updateItemValid (pf : Platform) (input : UpdateItemInput) : bool :=
  nonEmpty (ui_name input)
  && leb zero (ui_price input)
  && optionally (isUrl pf) (ui_image input)
  && isNumber (ui_displayOrder input).

Definition setItem (pf : Platform) (env : Env) (input : UpdateItemInput)
    (mi : MenuItem) : MenuItem :=
  mkMenuItem (mi_id mi) (ui_name input)
    (orKeepText (ui_description input) (mi_description mi))
    (toDecimal pf (ui_price input))
    (orKeepText (ui_image input) (mi_image mi))
    (ui_isAvailable input)
    (toDecimal pf (ui_displayOrder input))
    (orKeepText (ui_category input) (mi_category mi))
    (orKeepText (ui_ingredients input) (mi_ingredients mi))
    (orKeepText (ui_preparationTime input) (mi_preparationTime mi))
    (ui_categoryId input) (mi_restaurantId mi) (mi_createdAt mi) (now env).

Definition updateItemResolver (pf : Platform) (env : Env) (ctx : Context)
    (input : UpdateItemInput) : Proc (option MenuItem) :=
  existingItem <- query (itemWithRestaurant (ui_id input)) ;;
  owned ctx existingItem "Menu item not found"
    "You can only update items in your own restaurants"
    (fun existing =>
       category <- query (fun db =>
         findFirst (fun c => mc_id c =? ui_categoryId input)
                   (menuCategories db)) ;;
       match category with
       | None => throw BAD_REQUEST "Invalid category for this restaurant"
       | Some c =>
           if negb (mc_restaurantId c =? mi_restaurantId existing) then
             throw BAD_REQUEST "Invalid category for this restaurant"
           else
             updated <- updateMenuItems (ui_id input)
                          [ui_price input; ui_displayOrder input]
                          (Some (ui_categoryId input))
                          (setItem pf env input) ;;
             ret (firstRow updated)
       end).

Definition updateItem (pf : Platform) (env : Env)
  : Context -> UpdateItemInput -> Proc (option MenuItem) :=
  ownerProcedure (updateItemValid pf) (updateItemResolver pf env).

Definition deleteItemResolver (ctx : Context) (id : string) : Proc JsVal :=
  existingItem <- query (itemWithRestaurant id) ;;
  owned ctx existingItem "Menu item not found"
    "You can only delete items in your own restaurants"
    (fun _ =>
       _ <- write (deleteMenuItems (fun mi => mi_id mi =? id)) ;;
       ret (successPayload "Menu item deleted successfully")).

Definition deleteItem : Context -> string -> Proc JsVal :=
  ownerProcedure (fun _ => true) deleteItemResolver.

(** [set({ isAvailable: !existingItem.isAvailable, updatedAt })]: the
    value written is the negation of the value read. *)
Definition setAvailability (env : Env) (isAvailable : bool) (mi : MenuItem)
  : MenuItem :=
  mkMenuItem (mi_id mi) (mi_name mi) (mi_description mi) (mi_price mi)
    (mi_image mi) isAvailable (mi_displayOrder mi) (mi_category mi)
    (mi_ingredients mi) (mi_preparationTime mi) (mi_categoryId mi)
    (mi_restaurantId mi) (mi_createdAt mi) (now env).

Definition toggleItemAvailabilityResolver (env : Env) (ctx : Context)
    (id : string) : Proc (option MenuItem) :=
  existingItem <- query (itemWithRestaurant id) ;;
  owned ctx existingItem "Menu item not found"
    "You can only modify items in your own restaurants"
    (fun existing =>
       updated <- updateMenuItems id [] None
                    (setAvailability env (negb (mi_isAvailable existing))) ;;
       ret (firstRow updated)).

Definition toggleItemAvailability (env : Env)
  : Context -> string -> Proc (option MenuItem) :=
  ownerProcedure (fun _ => true) (toggleItemAvailabilityResolver env).

End MenuRouter.

(* ================================================================== *)
(** ** The assistant router: [getMenuSummary] *)

Module AiSummary.












End AiSummary.

(* ================================================================== *)
(** ** Calls, and what the data base keeps through them *)

(** A call of one of the procedures that write. *)
Inductive Call : Type :=
| PlaceOrder (env : Env) (ctx : Context) (input : PlaceOrderInput)
| UpdateStatus (env : Env) (ctx : Context) (input : UpdateStatusInput)
| CancelOrder (env : Env) (ctx : Context) (input : CancelOrderInput)
| CreateRestaurant (env : Env) (ctx : Context)
    (input : RestaurantOwner.CreateInput)
| UpdateRestaurant (env : Env) (ctx : Context)
    (input : RestaurantOwner.UpdateInput)
| DeleteRestaurant (ctx : Context) (id : string)
| CreateCategory (env : Env) (ctx : Context)
    (input : MenuRouter.CreateCategoryInput)
| UpdateCategory (env : Env) (ctx : Context)
    (input : MenuRouter.UpdateCategoryInput)
| DeleteCategory (ctx : Context) (id : string)
| CreateItem (env : Env) (ctx : Context) (input : MenuRouter.CreateItemInput)
| UpdateItem (env : Env) (ctx : Context) (input : MenuRouter.UpdateItemInput)
| DeleteItem (ctx : Context) (id : string)
| ToggleItemAvailability (env : Env) (ctx : Context) (id : string).

(** The data base after a call, whether the call succeeded or failed. *)
Definition after (pf : Platform) (c : Call) (db : Db) : Db :=
  match c with
  | PlaceOrder env ctx input => snd (placeOrder env ctx input db)
  | UpdateStatus env ctx input => snd (updateStatus env ctx input db)
  | CancelOrder env ctx input => snd (cancelOrder env ctx input db)
  | CreateRestaurant env ctx input =>
      snd (RestaurantOwner.create pf env ctx input db)
  | UpdateRestaurant env ctx input =>
      snd (RestaurantOwner.update pf env ctx input db)
  | DeleteRestaurant ctx id => snd (RestaurantOwner.delete ctx id db)
  | CreateCategory env ctx input =>
      snd (MenuRouter.createCategory pf env ctx input db)
  | UpdateCategory env ctx input =>
      snd (MenuRouter.updateCategory pf env ctx input db)
  | DeleteCategory ctx id => snd (MenuRouter.deleteCategory ctx id db)
  | CreateItem env ctx input =>
      snd (MenuRouter.createItem pf env ctx input db)
  | UpdateItem env ctx input =>
      snd (MenuRouter.updateItem pf env ctx input db)
  | DeleteItem ctx id => snd (MenuRouter.deleteItem ctx id db)
  | ToggleItemAvailability env ctx id =>
      snd (MenuRouter.toggleItemAvailability env ctx id db)
  end.

(** The data base after a sequence of calls, the first call first. *)
Definition afterAll (pf : Platform) (calls : list Call) (db : Db) : Db :=
  fold_left (fun d c => after pf c d) calls db.

Definition emptyDb : Db := mkDb [] [] [] [] [].

(** Every reference of a row is to a row that is there. *)
Record Referenced (db : Db) : Prop := mkReferenced {
  ref_category_restaurant :
    forall c, In c (menuCategories db) ->
      hasId r_id (mc_restaurantId c) (restaurants db) = true;
  ref_item_category :
    forall mi, In mi (menuItems db) ->
      hasId mc_id (mi_categoryId mi) (menuCategories db) = true;
  ref_item_restaurant :
    forall mi, In mi (menuItems db) ->
      hasId r_id (mi_restaurantId mi) (restaurants db) = true;
  ref_order_restaurant :
    forall o, In o (orders db) ->
      hasId r_id (o_restaurantId o) (restaurants db) = true;
  ref_orderItem_order : itemsReferToOrders db;
  ref_orderItem_menuItem :
    forall oi, In oi (orderItems db) ->
      hasId mi_id (oi_menuItemId oi) (menuItems db) = true
}.

(** No two rows of a table share an id, and no two restaurants a slug. *)
Record Keyed (db : Db) : Prop := mkKeyed {
  key_restaurants : NoDup (map r_id (restaurants db));
  key_slugs : NoDup (map r_slug (restaurants db));
  key_categories : NoDup (map mc_id (menuCategories db));
  key_items : NoDup (map mi_id (menuItems db));
  key_orders : NoDup (map o_id (orders db));
  key_orderNumbers : NoDup (map o_orderNumber (orders db));
  key_orderItems : NoDup (map oi_id (orderItems db))
}.

(** The status of every order is one of the five. *)
Definition StatusesKnown (db : Db) : Prop :=
  forall o, In o (orders db) -> exists s : OrderStatus, o_status o = statusText s.

(** A menu item and the category it is filed under belong to one
    restaurant. *)
Definition ItemsFiledAtHome (db : Db) : Prop :=
  forall mi c,
    In mi (menuItems db) -> In c (menuCategories db) ->
    mc_id c = mi_categoryId mi ->
    mc_restaurantId c = mi_restaurantId mi.

(** The writes that the procedures are made of, each with what the
    procedure has established when it makes the write. *)
Inductive Step (db : Db) : Db -> Prop :=
| StepInsertOrder (env : Env) (v : NewOrder) :
    (exists s : OrderStatus, no_status v = statusText s) ->
    Step db (snd (insertOrder env v db))
| StepInsertOrderItem (env : Env) (d : OrderItemData) (orderId : string) :
    Step db (snd (insertOrderItem env d orderId db))
| StepUpdateOrders (id : string) (set : Order -> Order) :
    (forall o,
       o_id (set o) = o_id o
       /\ o_orderNumber (set o) = o_orderNumber o
       /\ o_restaurantId (set o) = o_restaurantId o
       /\ exists s : OrderStatus, o_status (set o) = statusText s) ->
    Step db (snd (updateOrders id set db))
| StepInsertRestaurant (row : Restaurant) :
    Step db (snd (insertRestaurant row db))
| StepUpdateRestaurants (id : string) (set : Restaurant -> Restaurant) :
    (forall r, r_id (set r) = r_id r) ->
    Step db (snd (updateRestaurants id set db))
| StepDeleteRestaurants (p : Restaurant -> bool) :
    Step db (deleteRestaurants p db)
| StepInsertMenuCategory (displayOrder : number) (row : MenuCategory) :
    Step db (snd (insertMenuCategory displayOrder row db))
| StepUpdateMenuCategories (id : string) (displayOrder : number)
    (set : MenuCategory -> MenuCategory) :
    (forall c,
       mc_id (set c) = mc_id c
       /\ mc_restaurantId (set c) = mc_restaurantId c) ->
    Step db (snd (updateMenuCategories id displayOrder set db))
| StepDeleteMenuCategories (p : MenuCategory -> bool) :
    Step db (deleteMenuCategories p db)
| StepInsertMenuItem (price displayOrder : number) (row : MenuItem)
    (c : MenuCategory) :
    findFirst (fun c' => mc_id c' =? mi_categoryId row) (menuCategories db)
      = Some c ->
    mc_restaurantId c = mi_restaurantId row ->
    Step db (snd (insertMenuItem price displayOrder row db))
| StepRefileMenuItems (id : string) (numbers : list number)
    (categoryId : string) (set : MenuItem -> MenuItem)
    (existing : MenuItem) (c : MenuCategory) :
    findFirst (fun mi => mi_id mi =? id) (menuItems db) = Some existing ->
    findFirst (fun c' => mc_id c' =? categoryId) (menuCategories db)
      = Some c ->
    mc_restaurantId c = mi_restaurantId existing ->
    (forall mi,
       mi_id (set mi) = mi_id mi
       /\ mi_restaurantId (set mi) = mi_restaurantId mi
       /\ mi_categoryId (set mi) = categoryId) ->
    Step db (snd (updateMenuItems id numbers (Some categoryId) set db))
| StepTouchMenuItems (id : string) (set : MenuItem -> MenuItem) :
    (forall mi,
       mi_id (set mi) = mi_id mi
       /\ mi_restaurantId (set mi) = mi_restaurantId mi
       /\ mi_categoryId (set mi) = mi_categoryId mi) ->
    Step db (snd (updateMenuItems id [] None set db))
| StepDeleteMenuItems (p : MenuItem -> bool) :
    Step db (deleteMenuItems p db).

(** Any number of writes, one after the other. *)
Inductive Steps (db : Db) : Db -> Prop :=
| StepsDone : Steps db db
| StepsMore (db1 db2 : Db) : Step db db1 -> Steps db1 db2 -> Steps db db2.

(** The four properties together. *)
Record Consistent (db : Db) : Prop := mkConsistent {
  con_referenced : Referenced db;
  con_keyed : Keyed db;
  con_statuses : StatusesKnown db;
  con_filed : ItemsFiledAtHome db
}.

(** The columns of an order that no status change writes. *)
Definition orderCore (o : Order)
  : string * string * number * option string * option string * option string
    * option Z * string * string * Z :=
  (o_id o, o_orderNumber o, o_totalAmount o, o_customerName o,
   o_customerEmail o, o_customerPhone o, o_estimatedDeliveryTime o,
   o_restaurantId o, o_customerId o, o_createdAt o).

(** The orders and their item rows are the same in two data bases. *)
Definition OrdersKept (db db' : Db) : Prop :=
  orders db' = orders db /\ orderItems db' = orderItems db.

(** The calls that create or change a restaurant, a category or a menu
    item, and delete nothing. *)
Definition isCatalogueEdit (c : Call) : bool :=
  match c with
  | CreateRestaurant _ _ _ | UpdateRestaurant _ _ _
  | CreateCategory _ _ _ | UpdateCategory _ _ _
  | CreateItem _ _ _ | UpdateItem _ _ _
  | ToggleItemAvailability _ _ _ => true
  | _ => false
  end.

(* ================================================================== *)
(** ** A platform and a sequence of calls, used for the concrete runs *)

Module Demo.

(** The hundredth nearest to the exact value of a number, ties away from
    zero; 0 for what is not finite. *)
Definition nearestHundredth (x : number) : Z :=
  match x with
  | S754_finite s m e =>
      let n := (100 * Z.pos m)%Z in
      let q := if (0 <=? e)%Z then (n * 2 ^ e)%Z
               else ((2 * n + 2 ^ (- e)) / (2 * 2 ^ (- e)))%Z in
      if s then (- q)%Z else q
  | _ => 0%Z
  end.

Fixpoint contains (c : ascii) (s : string) : bool :=
  match s with
  | EmptyString => false
  | String c' rest => Ascii.eqb c c' || contains c rest
  end.

Definition platform : Platform :=
  mkPlatform nearestHundredth (contains "@"%char)
    (String.prefix "http")
    [ mkUserRow "u-alice" "Alice" "alice@example.com" None;
      mkUserRow "u-olga" "Olga" "olga@example.com" (Some "555-0100") ].

Definition bistro : RestaurantOwner.CreateInput :=
  RestaurantOwner.mkCreateInput "Bistro" None "bistro" None None
    (Some "olga@example.com") None None.

(** Olga opens a bistro, Alice orders two burgers at the cafe, Olga takes
    the burger off the menu of the cafe, then deletes the burger. *)
Definition afternoon : list Call :=
  [ CreateRestaurant Scenario.env0 (signedIn Scenario.olga) bistro;
    PlaceOrder Scenario.env0 (signedIn Scenario.alice) Scenario.twoBurgers;
    ToggleItemAvailability Scenario.env0 (signedIn Scenario.olga) "m1";
    DeleteItem (signedIn Scenario.olga) "m1" ].

End Demo.

(* ================================================================== *)
(** ** The authorization gate *)

Section Gate.

Context {I O : Type}.
Variable valid : I -> bool.
Variable resolver : Context -> I -> Proc O.

Lemma isAuthed_signedIn (A : Type) (ctx : Context) (u : User)
    (next : Context -> Proc A) :
  identity ctx = Some u ->
  isAuthed ctx next = next (signedIn u).
Proof.
  unfold identity, isAuthed, signedIn.
  destruct (ctx_session ctx) as [s|]; [|discriminate].
  intros ->. reflexivity.
Qed.

Lemma protectedProcedure_signedIn (ctx : Context) (u : User) (input : I) :
  identity ctx = Some u ->
  protectedProcedure valid resolver ctx input
  = publicProcedure valid resolver (signedIn u) input.
Proof.
  intros H. unfold protectedProcedure.
  now rewrite (isAuthed_signedIn _ _ _ _ H).
Qed.

Lemma ownerProcedure_owner (ctx : Context) (u : User) (input : I) :
  identity ctx = Some u ->
  u_role u = Some "OWNER" ->
  ownerProcedure valid resolver ctx input
  = publicProcedure valid resolver (signedIn u) input.
Proof.
  intros H R. unfold ownerProcedure.
  rewrite (isAuthed_signedIn _ _ _ _ H).
  unfold isOwner, signedIn; cbn. now rewrite R.
Qed.

Lemma roleIsNotOwner_true (role : option string) :
  role <> Some "OWNER" -> roleIsNotOwner role = true.
Proof.
  destruct role as [r|]; cbn; [|reflexivity].
  intros H. destruct (String.eqb_spec r "OWNER") as [->|]; [|reflexivity].
  now elim H.
Qed.

End Gate.

(** C7.  An owner-only procedure, whatever its resolver, its input and the
    data base: a caller with no identity is refused with UNAUTHORIZED, and
    a caller whose role is not "OWNER" is refused with FORBIDDEN; in both
    cases the resolver has not run, and the data base is the one the call
    started from. *)
Theorem ownerProcedure_gate :
  forall (I O : Type) (valid : I -> bool) (resolver : Context -> I -> Proc O)
         (ctx : Context) (input : I) (db : Db),
    (identity ctx = None ->
       forall resolver' : Context -> I -> Proc O,
         errorCode (fst (ownerProcedure valid resolver ctx input db))
           = Some UNAUTHORIZED
         /\ ownerProcedure valid resolver ctx input db
            = ownerProcedure valid resolver' ctx input db
         /\ snd (ownerProcedure valid resolver ctx input db) = db)
    /\
    (forall u : User,
       identity ctx = Some u ->
       u_role u <> Some "OWNER" ->
       forall resolver' : Context -> I -> Proc O,
         errorCode (fst (ownerProcedure valid resolver ctx input db))
           = Some FORBIDDEN
         /\ ownerProcedure valid resolver ctx input db
            = ownerProcedure valid resolver' ctx input db
         /\ snd (ownerProcedure valid resolver ctx input db) = db).
Proof.
  intros I O valid resolver ctx input db. split.
  - intros H resolver'. unfold ownerProcedure, isAuthed, identity in *.
    destruct (ctx_session ctx) as [s|].
    + rewrite H. now cbn.
    + now cbn.
  - intros u H R resolver'. unfold ownerProcedure.
    rewrite !(isAuthed_signedIn _ _ _ _ H).
    unfold isOwner, signedIn; cbn.
    rewrite (roleIsNotOwner_true _ R). now cbn.
Qed.

(** The gate at work on [updateStatus]: no session, then a customer; the
    order asked for does not exist in either call. *)
Lemma ownerProcedure_gate_witness :
  (errorCode (fst (updateStatus Scenario.env0 anonymous
                     (mkUpdateStatusInput "missing" READY) Scenario.db0))
     = Some UNAUTHORIZED)
  /\
  (errorCode (fst (updateStatus Scenario.env0 (signedIn Scenario.alice)
                     (mkUpdateStatusInput "missing" READY) Scenario.db0))
     = Some FORBIDDEN).
Proof.
  split.
  - apply (proj1 (ownerProcedure_gate _ _ (fun _ => true)
                    (updateStatusResolver Scenario.env0) anonymous
                    (mkUpdateStatusInput "missing" READY) Scenario.db0)
                 eq_refl (updateStatusResolver Scenario.env0)).
  - apply (proj2 (ownerProcedure_gate _ _ (fun _ => true)
                    (updateStatusResolver Scenario.env0)
                    (signedIn Scenario.alice)
                    (mkUpdateStatusInput "missing" READY) Scenario.db0)
                 Scenario.alice eq_refl).
    + discriminate.
    + exact (updateStatusResolver Scenario.env0).
Defined.

(* ================================================================== *)
(** ** Status changes *)

Lemma firstRow_findMany {A : Type} (p : A -> bool) (f : A -> A)
    (rows : list A) (x : A) :
  findFirst p rows = Some x ->
  firstRow (map f (findMany p rows)) = Some (f x).
Proof.
  unfold findFirst, findMany, firstRow.
  induction rows as [|y rows IH]; cbn; [discriminate|].
  destruct (p y); cbn.
  - now intros [= ->].
  - exact IH.
Qed.

Lemma negb_eqb_true (a b : string) : a <> b -> negb (a =? b) = true.
Proof.
  intros H. destruct (String.eqb_spec a b); [contradiction|reflexivity].
Qed.




(** What [cancelOrder] writes into [notes]. *)
Lemma cancelNote_reason (reason : string) :
  reason <> "" -> cancelNote (Some reason) = "Cancelled: " +++ reason.
Proof.
  intros H. unfold cancelNote, truthy.
  now rewrite (negb_eqb_true _ _ H).
Qed.

Lemma cancelNote_default (reason : option string) :
  reason = None \/ reason = Some "" ->
  cancelNote reason = "Cancelled by customer".
Proof.
  now intros [-> | ->].
Qed.

(** C4, as the router implements it.  [cancelOrder] on an existing order,
    by a signed-in caller: FORBIDDEN when the caller is not the order's
    customer; otherwise BAD_REQUEST when the status is not PENDING;
    otherwise the status becomes CANCELLED and the notes of the order are
    replaced by "Cancelled: " followed by the reason, or by "Cancelled by
    customer" when no reason (or an empty one) is given.  A refused call
    leaves the data base unchanged. *)
Theorem cancelOrder_behaviour :
  forall (env : Env) (ctx : Context) (u : User) (db : Db) (id : string)
         (reason : option string) (o : Order),
    identity ctx = Some u ->
    findFirst (fun o' => o_id o' =? id) (orders db) = Some o ->
    let res := cancelOrder env ctx (mkCancelOrderInput id reason) db in
    (o_customerId o <> u_id u ->
       errorCode (fst res) = Some FORBIDDEN /\ snd res = db)
    /\ (o_customerId o = u_id u -> o_status o <> "PENDING" ->
          errorCode (fst res) = Some BAD_REQUEST /\ snd res = db)
    /\ (o_customerId o = u_id u -> o_status o = "PENDING" ->
          fst res = Ok (Some (setCancelled env reason o))
          /\ o_status (setCancelled env reason o) = "CANCELLED"
          /\ o_notes (setCancelled env reason o) = Some (cancelNote reason)
          /\ orders (snd res)
             = map (fun o' => if o_id o' =? id
                              then setCancelled env reason o' else o')
                   (orders db)).
Proof.
  intros env ctx u db id reason o Hid Ho res.
  subst res. unfold cancelOrder.
  rewrite (protectedProcedure_signedIn _ _ _ _ _ Hid).
  unfold publicProcedure, cancelOrderResolver, bind, query, sessionUser,
    signedIn; cbn.
  rewrite Ho; cbn.
  split; [|split].
  - intros Hc. now rewrite (negb_eqb_true _ _ Hc).
  - intros Hc Hs. rewrite Hc, String.eqb_refl; cbn.
    now rewrite (negb_eqb_true _ _ Hs).
  - intros Hc Hs. rewrite Hc, Hs, String.eqb_refl; cbn.
    unfold updateOrders, ret; cbn.
    now rewrite (firstRow_findMany _ _ _ _ Ho).
Qed.

(** Alice cancels her pending order and says why. *)
Lemma cancelOrder_behaviour_witness :
  fst (cancelOrder Scenario.env0 (signedIn Scenario.alice)
         (mkCancelOrderInput "o1" (Some "Too slow")) Scenario.db1)
  = Ok (Some (setCancelled Scenario.env0 (Some "Too slow")
                Scenario.notedOrder)).
Proof.
  apply (proj2 (proj2 (cancelOrder_behaviour Scenario.env0
                         (signedIn Scenario.alice) Scenario.alice
                         Scenario.db1 "o1" (Some "Too slow")
                         Scenario.notedOrder eq_refl eq_refl))
               eq_refl eq_refl).
Defined.

(** C4, as the claim words it, fails: cancelling does not append to the
    notes of the order.  The order of Alice carried the note "No onions";
    after the call its notes are "Cancelled: Too slow", which does not
    continue the earlier note. *)
Lemma cancelOrder_overwrites_notes :
  exists o' : Order,
    fst (cancelOrder Scenario.env0 (signedIn Scenario.alice)
           (mkCancelOrderInput "o1" (Some "Too slow")) Scenario.db1)
      = Ok (Some o')
    /\ o_notes Scenario.notedOrder = Some "No onions"
    /\ o_notes o' = Some "Cancelled: Too slow"
    /\ ~ (exists suffix : string,
            o_notes o' = Some ("No onions" +++ suffix)).
Proof.
  eexists. split; [reflexivity|]. cbn.
  repeat split. intros [suffix H]. discriminate H.
Qed.

(* ================================================================== *)
(** ** placeOrder: the checks *)

Lemma verifyItems_run (db : Db) (rid : string) (cart : list CartItem) :
  verifyItems rid cart db
  = (match firstOffence db rid cart with
     | None => Ok tt
     | Some e => Err e
     end, db).
Proof.
  induction cart as [|item rest IH]; cbn; [reflexivity|].
  unfold bind, menuItemById, query; cbn.
  destruct (findFirst _ (menuItems db)) as [mi|]; [|reflexivity].
  destruct (mi_isAvailable mi); cbn; [|reflexivity].
  destruct (mi_restaurantId mi =? rid); cbn; [|reflexivity].
  exact IH.
Qed.

Lemma firstOffence_none (db : Db) (rid : string) (cart : list CartItem) :
  firstOffence db rid cart = None
  <-> forallb (itemAcceptable db rid) cart = true.
Proof.
  induction cart as [|item rest IH]; cbn; [tauto|].
  unfold itemAcceptable at 1.
  destruct (findFirst _ (menuItems db)) as [mi|]; cbn;
    [|split; discriminate].
  destruct (mi_isAvailable mi); cbn; [|split; discriminate].
  destruct (mi_restaurantId mi =? rid); cbn; [exact IH|split; discriminate].
Qed.



(** [placeOrder] up to the end of the first loop. *)
Lemma placeOrder_rejected (env : Env) (ctx : Context) (u : User)
    (input : PlaceOrderInput) (db : Db) :
  identity ctx = Some u ->
  placeOrderValid input = true ->
  (findFirst (fun r => r_id r =? restaurantId input) (restaurants db) = None
   \/ exists r,
        findFirst (fun r => r_id r =? restaurantId input) (restaurants db)
          = Some r
        /\ r_isActive r = false) ->
  placeOrder env ctx input db
  = (Err (mkTRPCError NOT_FOUND "Restaurant not found or not available"),
     db).
Proof.
  intros Hid Hv H. unfold placeOrder.
  rewrite (protectedProcedure_signedIn _ _ _ _ _ Hid).
  unfold publicProcedure. rewrite Hv.
  unfold placeOrderResolver, bind, query; cbn.
  destruct H as [-> | (r & -> & Hr)]; [reflexivity|].
  now rewrite Hr.
Qed.

Lemma placeOrder_offence (env : Env) (ctx : Context) (u : User)
    (input : PlaceOrderInput) (db : Db) (r : Restaurant) (e : TRPCError) :
  identity ctx = Some u ->
  placeOrderValid input = true ->
  findFirst (fun r => r_id r =? restaurantId input) (restaurants db)
    = Some r ->
  r_isActive r = true ->
  firstOffence db (restaurantId input) (items input) = Some e ->
  placeOrder env ctx input db = (Err e, db).
Proof.
  intros Hid Hv Hr Ha He. unfold placeOrder.
  rewrite (protectedProcedure_signedIn _ _ _ _ _ Hid).
  unfold publicProcedure. rewrite Hv.
  unfold placeOrderResolver, bind, query; cbn.
  rewrite Hr, Ha; cbn.
  now rewrite verifyItems_run, He.
Qed.



(* ================================================================== *)
(** ** placeOrder: totals and persistence *)

Lemma acceptable_found (db : Db) (rid : string) (item : CartItem) :
  itemAcceptable db rid item = true ->
  exists mi,
    findFirst (fun mi => mi_id mi =? menuItemId item) (menuItems db) = Some mi.
Proof.
  unfold itemAcceptable.
  destruct (findFirst _ (menuItems db)) as [mi|]; [|discriminate].
  intros _. now exists mi.
Qed.

Lemma computeItems_run (env : Env) (db : Db) (rid : string)
    (cart : list CartItem) :
  forallb (itemAcceptable db rid) cart = true ->
  forall (k : nat) (total : number) (acc : list OrderItemData),
    computeItems env cart k total acc db
    = (Ok (fold_left add (map (floatLineTotal db) cart) total,
           acc ++ cartData env db k cart), db).
Proof.
  induction cart as [|item rest IH]; intros Hall k total acc.
  - cbn. now rewrite app_nil_r.
  - cbn in Hall. apply andb_prop in Hall as [Hitem Hrest].
    destruct (acceptable_found _ _ _ Hitem) as [mi Hmi].
    cbn. unfold bind, menuItemById, query; cbn.
    rewrite Hmi, (IH Hrest), <- app_assoc; cbn.
    unfold lineData, floatLineTotal, priceOf. now rewrite Hmi.
Qed.


(** A call of [placeOrder] that passes the checks goes on to the two
    inserts, with the total and the item data of the second loop. *)
Lemma placeOrder_run (env : Env) (ctx : Context) (u : User)
    (input : PlaceOrderInput) (db : Db) (r : Restaurant) :
  identity ctx = Some u ->
  placeOrderValid input = true ->
  findFirst (fun r => r_id r =? restaurantId input) (restaurants db)
    = Some r ->
  r_isActive r = true ->
  firstOffence db (restaurantId input) (items input) = None ->
  placeOrder env ctx input db
  = tryCatch
      (createdOrder <- insertOrder env (newOrderOf env u input db) ;;
       _ <- insertItems env (o_id createdOrder)
              (cartData env db 0 (items input)) ;;
       ret createdOrder)
      (fun _ => throw INTERNAL_SERVER_ERROR "Failed to create order") db.
Proof.
  intros Hid Hv Hr Ha Hnone. unfold placeOrder.
  rewrite (protectedProcedure_signedIn _ _ _ _ _ Hid).
  unfold publicProcedure. rewrite Hv.
  unfold placeOrderResolver, bind at 1, query; cbn.
  rewrite Hr, Ha; cbn.
  unfold bind at 1; cbn. unfold bind at 1.
  rewrite verifyItems_run, Hnone.
  unfold bind at 1.
  apply firstOffence_none in Hnone.
  rewrite (computeItems_run env db _ _ Hnone); cbn.
  reflexivity.
Qed.




Lemma hasId_In {A : Type} (key : A -> string) (rows : list A) (row : A) :
  In row rows -> hasId key (key row) rows = true.
Proof.
  intros H. unfold hasId. apply existsb_exists.
  exists row. split; [exact H | apply String.eqb_refl].
Qed.




(** C1, on a run of the router.  Alice orders a hundred million glasses of
    tap water, which cost 0.00 each.  The total, 0, fits the column
    [total_amount], so the header is inserted; the quantity does not fit
    [decimal(10, 2)], so the insert of the item row is refused.  The call
    fails with INTERNAL_SERVER_ERROR "Failed to create order", and the data
    base, which held no order before, now holds the header of the order
    and no item row for it: nothing undoes the first insert. *)
Theorem placeOrder_header_without_items :
  let res := placeOrder Scenario.env0 (signedIn Scenario.alice)
               Scenario.bulkWater Scenario.db0 in
  placeOrderValid Scenario.bulkWater = true
  /\ orders Scenario.db0 = []
  /\ fst res
     = Err (mkTRPCError INTERNAL_SERVER_ERROR "Failed to create order")
  /\ (exists o : Order,
        orders (snd res) = [o]
        /\ o_customerId o = u_id Scenario.alice
        /\ orderItemsOf (o_id o) (snd res) = [])
  /\ orderItems (snd res) = [].
Proof.
  cbv zeta.
  split; [vm_compute; reflexivity|].
  split; [reflexivity|].
  split; [vm_compute; reflexivity|].
  split; [|vm_compute; reflexivity].
  exists (orderRow Scenario.env0
            (newOrderOf Scenario.env0 Scenario.alice Scenario.bulkWater
               Scenario.db0)).
  split; [vm_compute; reflexivity|].
  split; vm_compute; reflexivity.
Qed.










(* ================================================================== *)
(** ** The restaurant directory and the assistant *)










(* ================================================================== *)
(** ** Every call is a sequence of writes *)

Lemma hasId_true {A : Type} (key : A -> string) (k : string) (rows : list A) :
  hasId key k rows = true <-> exists row, In row rows /\ key row = k.
Proof.
  unfold hasId. rewrite existsb_exists.
  split; intros (row & Hin & H); exists row; split; auto.
  - now apply String.eqb_eq.
  - now apply String.eqb_eq.
Qed.

Lemma hasId_false {A : Type} (key : A -> string) (k : string) (rows : list A) :
  hasId key k rows = false <-> forall row, In row rows -> key row <> k.
Proof.
  split.
  - intros H row Hin E.
    assert (hasId key k rows = true) by (apply hasId_true; eauto).
    congruence.
  - intros H. destruct (hasId key k rows) eqn:E; [|reflexivity].
    apply hasId_true in E as (row & Hin & Hk). now elim (H row Hin).
Qed.

Lemma hasId_map {A : Type} (key : A -> string) (k : string) (rows : list A) :
  hasId key k rows = inIds k (map key rows).
Proof.
  unfold hasId, inIds. induction rows as [|row rows IH]; cbn; [reflexivity|].
  now rewrite IH.
Qed.

Lemma inIds_true (k : string) (ids : list string) :
  inIds k ids = true <-> In k ids.
Proof.
  unfold inIds. rewrite existsb_exists. split.
  - intros (x & Hin & E). apply String.eqb_eq in E. now subst.
  - intros H. exists k. split; [exact H | apply String.eqb_refl].
Qed.

Lemma findFirst_some {A : Type} (p : A -> bool) (rows : list A) (x : A) :
  findFirst p rows = Some x -> In x rows /\ p x = true.
Proof. apply find_some. Qed.

Lemma steps_one (db db' : Db) : Step db db' -> Steps db db'.
Proof. intros H. eapply StepsMore; [exact H | constructor]. Qed.

Lemma steps_trans (db1 db2 db3 : Db) :
  Steps db1 db2 -> Steps db2 db3 -> Steps db1 db3.
Proof.
  induction 1 as [|db1 dba dbb Hs Hss IH]; [auto|].
  intros H. eapply StepsMore; [exact Hs | now apply IH].
Qed.

(** A procedure does what its resolver does for a caller who passes the
    middlewares with a well-formed input, and nothing otherwise. *)
Lemma protectedProcedure_cases {I O : Type} (valid : I -> bool)
    (resolver : Context -> I -> Proc O) (ctx : Context) (input : I)
    (db : Db) :
  (exists e, protectedProcedure valid resolver ctx input db = (Err e, db))
  \/ (exists u,
        identity ctx = Some u
        /\ valid input = true
        /\ protectedProcedure valid resolver ctx input db
           = resolver (signedIn u) input db).
Proof.
  destruct (identity ctx) as [u|] eqn:Hid.
  - rewrite (protectedProcedure_signedIn _ _ _ _ _ Hid).
    unfold publicProcedure. destruct (valid input) eqn:Hv.
    + right. exists u. now repeat split.
    + left. eexists. reflexivity.
  - left. unfold protectedProcedure, isAuthed, identity in *.
    destruct (ctx_session ctx) as [s|]; [rewrite Hid|]; eexists; reflexivity.
Qed.

Lemma ownerProcedure_cases {I O : Type} (valid : I -> bool)
    (resolver : Context -> I -> Proc O) (ctx : Context) (input : I)
    (db : Db) :
  (exists e, ownerProcedure valid resolver ctx input db = (Err e, db))
  \/ (exists u,
        identity ctx = Some u
        /\ u_role u = Some "OWNER"
        /\ valid input = true
        /\ ownerProcedure valid resolver ctx input db
           = resolver (signedIn u) input db).
Proof.
  destruct (identity ctx) as [u|] eqn:Hid.
  - destruct (roleIsNotOwner (u_role u)) eqn:Hrole.
    + left. unfold ownerProcedure.
      rewrite (isAuthed_signedIn _ _ _ _ Hid).
      unfold isOwner, signedIn; cbn. rewrite Hrole. eexists. reflexivity.
    + assert (Hr : u_role u = Some "OWNER").
      { unfold roleIsNotOwner in Hrole.
        destruct (u_role u) as [r|]; [|discriminate].
        apply negb_false_iff, String.eqb_eq in Hrole. now subst. }
      rewrite (ownerProcedure_owner _ _ _ _ _ Hid Hr).
      unfold publicProcedure. destruct (valid input) eqn:Hv.
      * right. exists u. now repeat split.
      * left. eexists. reflexivity.
  - left. unfold ownerProcedure, isAuthed, identity in *.
    destruct (ctx_session ctx) as [s|]; [rewrite Hid|]; eexists; reflexivity.
Qed.

Lemma insertItems_steps (env : Env) (orderId : string)
    (data : list OrderItemData) :
  forall db, Steps db (snd (insertItems env orderId data db)).
Proof.
  induction data as [|d rest IH]; intros db; cbn; [constructor|].
  unfold bind.
  destruct (insertOrderItem env d orderId db) as [[[]|e] db1] eqn:E.
  - eapply StepsMore; [|apply IH].
    replace db1 with (snd (insertOrderItem env d orderId db))
      by now rewrite E.
    constructor.
  - cbn. apply steps_one.
    replace db1 with (snd (insertOrderItem env d orderId db))
      by now rewrite E.
    constructor.
Qed.

Lemma placeOrder_steps (env : Env) (ctx : Context) (input : PlaceOrderInput)
    (db : Db) :
  Steps db (snd (placeOrder env ctx input db)).
Proof.
  destruct (protectedProcedure_cases placeOrderValid
              (placeOrderResolver env) ctx input db)
    as [[e He] | (u & Hid & Hv & _)].
  { change (placeOrder env ctx input db = (Err e, db)) in He.
    rewrite He. constructor. }
  destruct (findFirst (fun r => r_id r =? restaurantId input) (restaurants db))
    as [r|] eqn:Hr.
  2:{ rewrite (placeOrder_rejected env ctx u input db Hid Hv);
        [constructor | now left]. }
  destruct (r_isActive r) eqn:Ha.
  2:{ rewrite (placeOrder_rejected env ctx u input db Hid Hv);
        [constructor | right; now exists r]. }
  destruct (firstOffence db (restaurantId input) (items input))
    as [e|] eqn:He.
  { rewrite (placeOrder_offence env ctx u input db r e Hid Hv Hr Ha He).
    constructor. }
  rewrite (placeOrder_run env ctx u input db r Hid Hv Hr Ha He).
  unfold tryCatch, bind at 1.
  destruct (insertOrder env (newOrderOf env u input db) db)
    as [[o|e] db1] eqn:Eo.
  - assert (S1 : Step db db1).
    { replace db1 with (snd (insertOrder env (newOrderOf env u input db) db))
        by now rewrite Eo.
      constructor. now exists PENDING. }
    unfold bind, ret.
    pose proof (insertItems_steps env (o_id o)
                  (cartData env db 0 (items input)) db1) as S2.
    destruct (insertItems env (o_id o) (cartData env db 0 (items input)) db1)
      as [[[]|e] db2]; cbn in *; eapply StepsMore; eauto.
  - cbn. apply steps_one.
    replace db1 with (snd (insertOrder env (newOrderOf env u input db) db))
      by now rewrite Eo.
    constructor. now exists PENDING.
Qed.

Ltac head_case :=
  match goal with
  | |- Steps _ (snd (match (match ?x with _ => _ end) _ with _ => _ end)) =>
      destruct x eqn:?
  | |- Steps _ (snd (match (match ?x with _ => _ end) with _ => _ end)) =>
      destruct x eqn:?
  | |- Steps _ (snd (match ?x with _ => _ end)) => destruct x eqn:?
  | |- Steps _ (snd ((match ?x with _ => _ end) _)) => destruct x eqn:?
  end.

Ltac run_resolver :=
  unfold bind, query, sessionUser, signedIn, throw, throwOther, ret, write;
  repeat (cbn beta iota zeta delta [snd fst ctx_session]; try head_case);
  try apply StepsDone.

Ltac by_write :=
  match goal with
  | H : ?w ?db = (_, ?d) |- Steps ?db ?d =>
      replace d with (snd (w db)) by (now rewrite H); apply steps_one
  end.

Lemma updateStatus_steps (env : Env) (ctx : Context)
    (input : UpdateStatusInput) (db : Db) :
  Steps db (snd (updateStatus env ctx input db)).
Proof.
  unfold updateStatus.
  destruct (ownerProcedure_cases (fun _ => true) (updateStatusResolver env)
              ctx input db) as [[e ->] | (u & _ & _ & _ & ->)];
    [constructor|].
  unfold updateStatusResolver, orderWithRestaurant. run_resolver.
  all: by_write; constructor; intros o'; cbn; repeat split;
    eexists; reflexivity.
Qed.

Lemma cancelOrder_steps (env : Env) (ctx : Context)
    (input : CancelOrderInput) (db : Db) :
  Steps db (snd (cancelOrder env ctx input db)).
Proof.
  unfold cancelOrder.
  destruct (protectedProcedure_cases (fun _ => true)
              (cancelOrderResolver env) ctx input db)
    as [[e ->] | (u & _ & _ & ->)]; [constructor|].
  unfold cancelOrderResolver. run_resolver.
  all: by_write; constructor; intros o'; cbn; repeat split;
    now exists CANCELLED.
Qed.

Lemma restaurant_create_steps (pf : Platform) (env : Env) (ctx : Context)
    (input : RestaurantOwner.CreateInput) (db : Db) :
  Steps db (snd (RestaurantOwner.create pf env ctx input db)).
Proof.
  unfold RestaurantOwner.create.
  destruct (ownerProcedure_cases (RestaurantOwner.createValid pf)
              (RestaurantOwner.createResolver env) ctx input db)
    as [[e ->] | (u & _ & _ & _ & ->)]; [constructor|].
  unfold RestaurantOwner.createResolver. run_resolver.
  apply steps_one. constructor.
Qed.

Lemma restaurant_update_steps (pf : Platform) (env : Env) (ctx : Context)
    (input : RestaurantOwner.UpdateInput) (db : Db) :
  Steps db (snd (RestaurantOwner.update pf env ctx input db)).
Proof.
  unfold RestaurantOwner.update.
  destruct (ownerProcedure_cases (RestaurantOwner.updateValid pf)
              (RestaurantOwner.updateResolver env) ctx input db)
    as [[e ->] | (u & _ & _ & _ & ->)]; [constructor|].
  unfold RestaurantOwner.updateResolver. run_resolver;
    by_write; constructor; reflexivity.
Qed.

Lemma restaurant_delete_steps (ctx : Context) (id : string) (db : Db) :
  Steps db (snd (RestaurantOwner.delete ctx id db)).
Proof.
  unfold RestaurantOwner.delete.
  destruct (ownerProcedure_cases (fun _ => true)
              RestaurantOwner.deleteResolver ctx id db)
    as [[e ->] | (u & _ & _ & _ & ->)]; [constructor|].
  unfold RestaurantOwner.deleteResolver. run_resolver.
  apply steps_one. constructor.
Qed.

Ltac open_owned :=
  unfold MenuRouter.owned, MenuRouter.categoryWithRestaurant,
    MenuRouter.itemWithRestaurant.

Lemma createCategory_steps (pf : Platform) (env : Env) (ctx : Context)
    (input : MenuRouter.CreateCategoryInput) (db : Db) :
  Steps db (snd (MenuRouter.createCategory pf env ctx input db)).
Proof.
  unfold MenuRouter.createCategory.
  destruct (ownerProcedure_cases MenuRouter.createCategoryValid
              (MenuRouter.createCategoryResolver pf env) ctx input db)
    as [[e ->] | (u & _ & _ & _ & ->)]; [constructor|].
  unfold MenuRouter.createCategoryResolver. run_resolver.
  apply steps_one. constructor.
Qed.

Lemma updateCategory_steps (pf : Platform) (env : Env) (ctx : Context)
    (input : MenuRouter.UpdateCategoryInput) (db : Db) :
  Steps db (snd (MenuRouter.updateCategory pf env ctx input db)).
Proof.
  unfold MenuRouter.updateCategory.
  destruct (ownerProcedure_cases MenuRouter.updateCategoryValid
              (MenuRouter.updateCategoryResolver pf env) ctx input db)
    as [[e ->] | (u & _ & _ & _ & ->)]; [constructor|].
  unfold MenuRouter.updateCategoryResolver. open_owned. run_resolver.
  all: by_write; constructor; intros c'; now cbn.
Qed.

Lemma deleteCategory_steps (ctx : Context) (id : string) (db : Db) :
  Steps db (snd (MenuRouter.deleteCategory ctx id db)).
Proof.
  unfold MenuRouter.deleteCategory.
  destruct (ownerProcedure_cases (fun _ => true)
              MenuRouter.deleteCategoryResolver ctx id db)
    as [[e ->] | (u & _ & _ & _ & ->)]; [constructor|].
  unfold MenuRouter.deleteCategoryResolver. open_owned. run_resolver.
  apply steps_one. constructor.
Qed.

Lemma createItem_steps (pf : Platform) (env : Env) (ctx : Context)
    (input : MenuRouter.CreateItemInput) (db : Db) :
  Steps db (snd (MenuRouter.createItem pf env ctx input db)).
Proof.
  unfold MenuRouter.createItem.
  destruct (ownerProcedure_cases (MenuRouter.createItemValid pf)
              (MenuRouter.createItemResolver pf env) ctx input db)
    as [[e ->] | (u & _ & _ & _ & ->)]; [constructor|].
  unfold MenuRouter.createItemResolver. run_resolver.
  apply steps_one.
  eapply StepInsertMenuItem; [cbn; eassumption|]. cbn.
  match goal with
  | H : negb (mc_restaurantId _ =? _) = false |- _ =>
      apply negb_false_iff, String.eqb_eq in H; exact H
  end.
Qed.

Lemma updateItem_steps (pf : Platform) (env : Env) (ctx : Context)
    (input : MenuRouter.UpdateItemInput) (db : Db) :
  Steps db (snd (MenuRouter.updateItem pf env ctx input db)).
Proof.
  unfold MenuRouter.updateItem.
  destruct (ownerProcedure_cases (MenuRouter.updateItemValid pf)
              (MenuRouter.updateItemResolver pf env) ctx input db)
    as [[e ->] | (u & _ & _ & _ & ->)]; [constructor|].
  unfold MenuRouter.updateItemResolver. open_owned. run_resolver.
  all: by_write;
    match goal with
    | H : option_map _ (findFirst ?p ?l) = Some _ |- _ =>
        destruct (findFirst p l) as [existing|] eqn:Hex;
          [cbn in H; injection H as ? ?; subst | discriminate H]
    end;
    eapply StepRefileMenuItems;
      [exact Hex | eassumption | | intros mi; now cbn];
    match goal with
    | H : negb (mc_restaurantId _ =? _) = false |- _ =>
        apply negb_false_iff, String.eqb_eq in H; exact H
    end.
Qed.

Lemma deleteItem_steps (ctx : Context) (id : string) (db : Db) :
  Steps db (snd (MenuRouter.deleteItem ctx id db)).
Proof.
  unfold MenuRouter.deleteItem.
  destruct (ownerProcedure_cases (fun _ => true)
              MenuRouter.deleteItemResolver ctx id db)
    as [[e ->] | (u & _ & _ & _ & ->)]; [constructor|].
  unfold MenuRouter.deleteItemResolver. open_owned. run_resolver.
  apply steps_one. constructor.
Qed.

Lemma toggleItemAvailability_steps (env : Env) (ctx : Context) (id : string)
    (db : Db) :
  Steps db (snd (MenuRouter.toggleItemAvailability env ctx id db)).
Proof.
  unfold MenuRouter.toggleItemAvailability.
  destruct (ownerProcedure_cases (fun _ => true)
              (MenuRouter.toggleItemAvailabilityResolver env) ctx id db)
    as [[e ->] | (u & _ & _ & _ & ->)]; [constructor|].
  unfold MenuRouter.toggleItemAvailabilityResolver. open_owned. run_resolver.
  all: by_write; constructor; intros mi'; now cbn.
Qed.

Lemma call_steps (pf : Platform) (c : Call) (db : Db) :
  Steps db (after pf c db).
Proof.
  destruct c; cbn.
  - apply placeOrder_steps.
  - apply updateStatus_steps.
  - apply cancelOrder_steps.
  - apply restaurant_create_steps.
  - apply restaurant_update_steps.
  - apply restaurant_delete_steps.
  - apply createCategory_steps.
  - apply updateCategory_steps.
  - apply deleteCategory_steps.
  - apply createItem_steps.
  - apply updateItem_steps.
  - apply deleteItem_steps.
  - apply toggleItemAvailability_steps.
Qed.

(* ================================================================== *)
(** ** What every write keeps *)

Lemma in_updated {A : Type} (key : A -> string) (id : string) (set : A -> A)
    (rows : list A) (x : A) :
  In x (map (fun row => if key row =? id then set row else row) rows) ->
  exists row, In row rows /\ (x = row \/ (key row = id /\ x = set row)).
Proof.
  rewrite in_map_iff. intros (row & E & Hin). exists row. split; [exact Hin|].
  destruct (String.eqb_spec (key row) id); subst; auto.
Qed.

Lemma hasId_app {A : Type} (key : A -> string) (k : string)
    (rows more : list A) :
  hasId key k (rows ++ more) = hasId key k rows || hasId key k more.
Proof. unfold hasId. apply existsb_app. Qed.

Lemma hasId_grows {A : Type} (key : A -> string) (k : string)
    (rows more : list A) :
  hasId key k rows = true -> hasId key k (rows ++ more) = true.
Proof. intros H. now rewrite hasId_app, H. Qed.

Lemma hasId_updated {A : Type} (key : A -> string) (k id : string)
    (set : A -> A) (rows : list A) :
  (forall row, key (set row) = key row) ->
  hasId key k (map (fun row => if key row =? id then set row else row) rows)
  = hasId key k rows.
Proof.
  intros Hset. unfold hasId.
  induction rows as [|row rows IH]; cbn; [reflexivity|].
  rewrite IH. f_equal.
  destruct (key row =? id); [now rewrite Hset | reflexivity].
Qed.

Lemma step_statuses (db db' : Db) :
  Step db db' -> StatusesKnown db -> StatusesKnown db'.
Proof.
  intros Hstep Hinv.
  destruct Hstep as
    [ env v Hs | env d oid | id set Hset | row | id set Hset | p
    | dn row | id dn set Hset | p | pr dn row c Hc Hrid
    | id ns cat set existing c Hex Hc Hrid Hset | id set Hset | p ];
    unfold StatusesKnown in *.
  - unfold insertOrder. destruct (orderAccepted _ _); cbn; [|exact Hinv].
    intros o Hin. apply in_app_or in Hin as [Hin | [<- | []]]; auto.
  - unfold insertOrderItem. destruct (orderItemAccepted _ _); exact Hinv.
  - cbn. intros o Hin.
    apply in_updated in Hin as (o0 & Hin & [-> | [_ ->]]); auto.
    apply Hset.
  - unfold insertRestaurant. destruct (restaurantAccepted _ _); exact Hinv.
  - unfold updateRestaurants.
    destruct (restaurantUpdateAccepted _ _ _); exact Hinv.
  - cbn. intros o Hin. apply filter_In in Hin as [Hin _]. auto.
  - unfold insertMenuCategory. destruct (categoryAccepted _ _ _); exact Hinv.
  - unfold updateMenuCategories. destruct (fits_numeric_10_2 _); exact Hinv.
  - exact Hinv.
  - unfold insertMenuItem. destruct (menuItemAccepted _ _ _ _); exact Hinv.
  - unfold updateMenuItems. destruct (_ && _); exact Hinv.
  - unfold updateMenuItems. destruct (_ && _); exact Hinv.
  - exact Hinv.
Qed.

Ltac tables :=
  unfold updateOrders, deleteOrders, deleteMenuItems, deleteMenuCategories,
    itemsReferToOrders in *;
  cbn [restaurants menuCategories menuItems orders orderItems snd] in *.

Lemma kept_row_has_id {A : Type} (key : A -> string) (p : A -> bool)
    (k : string) (rows : list A) :
  hasId key k rows = true ->
  inIds k (map key (filter p rows)) = false ->
  hasId key k (filter (fun row => negb (p row)) rows) = true.
Proof.
  intros Hhas Hgone. apply hasId_true in Hhas as (row & Hin & Hk).
  apply hasId_true. exists row. split; [|exact Hk].
  apply filter_In. split; [exact Hin|].
  destruct (p row) eqn:Hp; [|reflexivity].
  assert (inIds k (map key (filter p rows)) = true); [|congruence].
  apply inIds_true, in_map_iff. exists row. split; [exact Hk|].
  apply filter_In. now split.
Qed.

Lemma deleteOrders_referenced (p : Order -> bool) (db : Db) :
  Referenced db -> Referenced (deleteOrders p db).
Proof.
  intros [H1 H2 H3 H4 H5 H6]. split; tables; auto.
  - intros o Hin. apply filter_In in Hin as [Hin _]. auto.
  - intros oi Hin. tables. apply filter_In in Hin as [Hin Hkeep].
    apply negb_true_iff in Hkeep.
    apply kept_row_has_id; [now apply H5 | exact Hkeep].
  - intros oi Hin. apply filter_In in Hin as [Hin _]. auto.
Qed.

Lemma deleteMenuItems_referenced (p : MenuItem -> bool) (db : Db) :
  Referenced db -> Referenced (deleteMenuItems p db).
Proof.
  intros [H1 H2 H3 H4 H5 H6]. split; tables; auto.
  - intros mi Hin. apply filter_In in Hin as [Hin _]. auto.
  - intros mi Hin. apply filter_In in Hin as [Hin _]. auto.
  - intros oi Hin. tables. apply filter_In in Hin as [Hin _]. auto.
  - intros oi Hin. apply filter_In in Hin as [Hin Hkeep].
    apply negb_true_iff in Hkeep.
    apply kept_row_has_id; [now apply H6 | exact Hkeep].
Qed.

Lemma deleteMenuCategories_referenced (p : MenuCategory -> bool) (db : Db) :
  Referenced db -> Referenced (deleteMenuCategories p db).
Proof.
  intros Href.
  pose proof (deleteMenuItems_referenced
                (fun mi => inIds (mi_categoryId mi)
                             (map mc_id (filter p (menuCategories db))))
                db Href) as [H1 H2 H3 H4 H5 H6].
  unfold deleteMenuCategories. split; tables; auto.
  - intros c Hin. apply filter_In in Hin as [Hin _]. auto.
  - intros mi Hin. pose proof (H2 mi Hin) as Hcat.
    apply filter_In in Hin as [Hin Hkeep]. apply negb_true_iff in Hkeep.
    now apply kept_row_has_id.
Qed.

Lemma deleteRestaurants_referenced (p : Restaurant -> bool) (db : Db) :
  Referenced db -> Referenced (deleteRestaurants p db).
Proof.
  intros Href.
  set (gone := map r_id (filter p (restaurants db))).
  set (db1 := deleteOrders (fun o => inIds (o_restaurantId o) gone) db).
  set (db2 := deleteMenuItems (fun mi => inIds (mi_restaurantId mi) gone) db1).
  set (db3 := deleteMenuCategories
                (fun c => inIds (mc_restaurantId c) gone) db2).
  assert (R3 : Referenced db3).
  { apply deleteMenuCategories_referenced, deleteMenuItems_referenced,
      deleteOrders_referenced, Href. }
  destruct R3 as [H1 H2 H3 H4 H5 H6].
  change (deleteRestaurants p db)
    with (mkDb (filter (fun r => negb (p r)) (restaurants db3))
               (menuCategories db3) (menuItems db3) (orders db3)
               (orderItems db3)).
  assert (Hsame : restaurants db3 = restaurants db) by reflexivity.
  split; tables;
    auto; rewrite Hsame.
  - intros c Hin. pose proof (H1 c Hin) as Hr. rewrite Hsame in Hr.
    apply kept_row_has_id; [exact Hr|].
    tables. apply filter_In in Hin as [_ Hkeep].
    now apply negb_true_iff in Hkeep.
  - intros mi Hin. pose proof (H3 mi Hin) as Hr. rewrite Hsame in Hr.
    apply kept_row_has_id; [exact Hr|].
    tables. apply filter_In in Hin as [Hin _].
    apply filter_In in Hin as [_ Hkeep].
    now apply negb_true_iff in Hkeep.
  - intros o Hin. pose proof (H4 o Hin) as Hr. rewrite Hsame in Hr.
    apply kept_row_has_id; [exact Hr|].
    tables. apply filter_In in Hin as [_ Hkeep].
    now apply negb_true_iff in Hkeep.
Qed.

Lemma step_referenced (db db' : Db) :
  Step db db' -> Referenced db -> Referenced db'.
Proof.
  intros Hstep Hinv.
  destruct Hstep as
    [ env v Hs | env d oid | id set Hset | row | id set Hset | p
    | dn row | id dn set Hset | p | pr dn row c Hc Hrid
    | id ns cat set existing c Hex Hc Hrid Hset | id set Hset | p ].
  - unfold insertOrder. destruct (orderAccepted _ _) eqn:Hacc; [|exact Hinv].
    destruct Hinv as [H1 H2 H3 H4 H5 H6]. split; tables; auto.
    + intros o Hin. apply in_app_or in Hin as [Hin | [<- | []]]; auto.
      unfold orderAccepted in Hacc.
      now apply andb_prop in Hacc as [_ Hacc].
    + intros oi Hin. tables. apply hasId_grows. now apply H5.
  - unfold insertOrderItem.
    destruct (orderItemAccepted _ _) eqn:Hacc; [|exact Hinv].
    destruct Hinv as [H1 H2 H3 H4 H5 H6]. split; tables; auto.
    + intros oi Hin. tables. apply in_app_or in Hin as [Hin | [<- | []]];
        [now apply H5|].
      unfold orderItemAccepted in Hacc.
      apply andb_prop in Hacc as [Hacc _].
      now apply andb_prop in Hacc as [_ Hacc].
    + intros oi Hin. apply in_app_or in Hin as [Hin | [<- | []]]; auto.
      unfold orderItemAccepted in Hacc.
      now apply andb_prop in Hacc as [_ Hacc].
  - destruct Hinv as [H1 H2 H3 H4 H5 H6]. split; tables; auto.
    + intros o Hin.
      apply in_updated in Hin as (o0 & Hin & [-> | [_ ->]]); auto.
      destruct (Hset o0) as (_ & _ & -> & _). auto.
    + intros oi Hin. tables.
      rewrite hasId_updated; [now apply H5 | apply Hset].
  - unfold insertRestaurant.
    destruct (restaurantAccepted _ _); [|exact Hinv].
    destruct Hinv as [H1 H2 H3 H4 H5 H6].
    split; tables; auto; intros; apply hasId_grows; auto.
  - unfold updateRestaurants.
    destruct (restaurantUpdateAccepted _ _ _); [|exact Hinv].
    destruct Hinv as [H1 H2 H3 H4 H5 H6].
    split; tables; auto; intros; rewrite hasId_updated; auto.
  - now apply deleteRestaurants_referenced.
  - unfold insertMenuCategory.
    destruct (categoryAccepted _ _ _) eqn:Hacc; [|exact Hinv].
    destruct Hinv as [H1 H2 H3 H4 H5 H6]. split; tables; auto.
    + intros c Hin. apply in_app_or in Hin as [Hin | [<- | []]]; auto.
      unfold categoryAccepted in Hacc.
      now apply andb_prop in Hacc as [_ Hacc].
    + intros mi Hin. apply hasId_grows. auto.
  - unfold updateMenuCategories.
    destruct (fits_numeric_10_2 _); [|exact Hinv].
    destruct Hinv as [H1 H2 H3 H4 H5 H6]. split; tables; auto.
    + intros c Hin.
      apply in_updated in Hin as (c0 & Hin & [-> | [_ ->]]); auto.
      destruct (Hset c0) as [_ ->]. auto.
    + intros mi Hin. rewrite hasId_updated; [auto | apply Hset].
  - now apply deleteMenuCategories_referenced.
  - unfold insertMenuItem.
    destruct (menuItemAccepted _ _ _ _) eqn:Hacc; [|exact Hinv].
    destruct Hinv as [H1 H2 H3 H4 H5 H6].
    unfold menuItemAccepted in Hacc.
    apply andb_prop in Hacc as [Hacc Hr].
    apply andb_prop in Hacc as [_ Hcat].
    split; tables; auto.
    + intros mi Hin. apply in_app_or in Hin as [Hin | [<- | []]]; auto.
    + intros mi Hin. apply in_app_or in Hin as [Hin | [<- | []]]; auto.
    + intros oi Hin. apply hasId_grows. auto.
  - unfold updateMenuItems. destruct (_ && _) eqn:Hacc; [|exact Hinv].
    apply andb_prop in Hacc as [_ Hcat].
    destruct Hinv as [H1 H2 H3 H4 H5 H6]. split; tables; auto.
    + intros mi Hin.
      apply in_updated in Hin as (mi0 & Hin & [-> | [_ ->]]); auto.
      destruct (Hset mi0) as (_ & _ & ->). exact Hcat.
    + intros mi Hin.
      apply in_updated in Hin as (mi0 & Hin & [-> | [_ ->]]); auto.
      destruct (Hset mi0) as (_ & -> & _). auto.
    + intros oi Hin. rewrite hasId_updated; [auto | apply Hset].
  - unfold updateMenuItems. destruct (_ && _); [|exact Hinv].
    destruct Hinv as [H1 H2 H3 H4 H5 H6]. split; tables; auto.
    + intros mi Hin.
      apply in_updated in Hin as (mi0 & Hin & [-> | [_ ->]]); auto.
      destruct (Hset mi0) as (_ & _ & ->). auto.
    + intros mi Hin.
      apply in_updated in Hin as (mi0 & Hin & [-> | [_ ->]]); auto.
      destruct (Hset mi0) as (_ & -> & _). auto.
    + intros oi Hin. rewrite hasId_updated; [auto | apply Hset].
  - now apply deleteMenuItems_referenced.
Qed.

Lemma NoDup_map_filter {A : Type} (key : A -> string) (p : A -> bool)
    (rows : list A) :
  NoDup (map key rows) -> NoDup (map key (filter p rows)).
Proof.
  induction rows as [|row rows IH]; cbn; [auto|].
  intros H. inversion H as [|? ? Hnotin Hrest]; subst.
  destruct (p row); cbn; [|auto].
  constructor; [|auto].
  intros Hin. apply Hnotin. apply in_map_iff in Hin as (x & E & Hx).
  apply filter_In in Hx as [Hx _]. apply in_map_iff. now exists x.
Qed.

Lemma NoDup_map_snoc {A : Type} (key : A -> string) (rows : list A)
    (row : A) :
  NoDup (map key rows) ->
  hasId key (key row) rows = false ->
  NoDup (map key (rows ++ [row])).
Proof.
  intros Hnd Hnew. rewrite map_app; cbn.
  apply NoDup_app; [exact Hnd | repeat constructor; auto |].
  intros k Hin [<- | []].
  apply in_map_iff in Hin as (x & E & Hx).
  rewrite hasId_false in Hnew. now apply (Hnew x Hx).
Qed.

Lemma map_updated {A : Type} (key other : A -> string) (id : string)
    (set : A -> A) (rows : list A) :
  (forall row, other (set row) = other row) ->
  map other (map (fun row => if key row =? id then set row else row) rows)
  = map other rows.
Proof.
  intros Hset. rewrite map_map. apply map_ext.
  intros row. destruct (key row =? id); [apply Hset | reflexivity].
Qed.

Lemma same_key_same_row {A : Type} (key : A -> string) (rows : list A)
    (a b : A) :
  NoDup (map key rows) -> In a rows -> In b rows -> key a = key b -> a = b.
Proof.
  induction rows as [|row rows IH]; cbn; [tauto|].
  intros H Ha Hb E. inversion H as [|? ? Hnotin Hrest]; subst.
  destruct Ha as [-> | Ha], Hb as [-> | Hb]; auto.
  - elim Hnotin. rewrite E. now apply in_map.
  - elim Hnotin. rewrite <- E. now apply in_map.
Qed.

(** An accepted change of slug keeps the slugs distinct. *)
Lemma updated_slugs_distinct (id : string) (set : Restaurant -> Restaurant)
    (rows : list Restaurant) :
  NoDup (map r_id rows) ->
  NoDup (map r_slug rows) ->
  (forall r r', In r rows -> In r' rows -> r_id r = id -> r_id r' <> id ->
                r_slug r' <> r_slug (set r)) ->
  NoDup (map r_slug
           (map (fun r => if r_id r =? id then set r else r) rows)).
Proof.
  induction rows as [|x rows IH]; cbn; [constructor|].
  intros Hids Hslugs Hacc.
  inversion Hids as [|? ? Hidx Hids']; subst.
  inversion Hslugs as [|? ? Hslugx Hslugs']; subst.
  constructor.
  - intros Hin. apply in_map_iff in Hin as (y' & E & Hy').
    apply in_updated in Hy' as (y & Hy & Hcase).
    destruct (String.eqb_spec (r_id x) id) as [Hx | Hx].
    + assert (r_id y <> id).
      { intros Ey. apply Hidx. rewrite Hx, <- Ey. now apply in_map. }
      destruct Hcase as [-> | [Ey _]]; [|contradiction].
      apply (Hacc x y); auto.
    + destruct Hcase as [-> | [Ey ->]].
      * apply Hslugx. rewrite <- E. now apply in_map.
      * apply (Hacc y x); auto.
  - apply IH; auto.
Qed.

Lemma restaurantUpdateAccepted_spec (db : Db) (id : string)
    (set : Restaurant -> Restaurant) :
  restaurantUpdateAccepted db id set = true ->
  forall r r', In r (restaurants db) -> In r' (restaurants db) ->
               r_id r = id -> r_id r' <> id ->
               r_slug r' <> r_slug (set r).
Proof.
  unfold restaurantUpdateAccepted. rewrite forallb_forall.
  intros H r r' Hr Hr' Hid Hid' E.
  specialize (H r Hr). rewrite Hid, String.eqb_refl in H.
  apply andb_prop in H as [_ H]. apply negb_true_iff in H.
  assert (existsb (fun r'0 => negb (r_id r'0 =? id)
                              && (r_slug r'0 =? r_slug (set r)))
                  (restaurants db) = true); [|congruence].
  apply existsb_exists. exists r'. split; [exact Hr'|].
  rewrite (negb_eqb_true _ _ Hid'), E. apply String.eqb_refl.
Qed.

Lemma step_keyed (db db' : Db) :
  Step db db' -> Keyed db -> Keyed db'.
Proof.
  intros Hstep Hinv.
  destruct Hstep as
    [ env v Hs | env d oid | id set Hset | row | id set Hset | p
    | dn row | id dn set Hset | p | pr dn row c Hc Hrid
    | id ns cat set existing c Hex Hc Hrid Hset | id set Hset | p ].
  - unfold insertOrder. destruct (orderAccepted _ _) eqn:Hacc; [|exact Hinv].
    destruct Hinv as [K1 K2 K3 K4 K5 K6 K7].
    unfold orderAccepted in Hacc.
    repeat (apply andb_prop in Hacc as [Hacc ?]).
    repeat match goal with
           | H : negb _ = true |- _ => apply negb_true_iff in H
           end.
    split; tables; auto; now apply NoDup_map_snoc.
  - unfold insertOrderItem.
    destruct (orderItemAccepted _ _) eqn:Hacc; [|exact Hinv].
    destruct Hinv as [K1 K2 K3 K4 K5 K6 K7].
    unfold orderItemAccepted in Hacc.
    repeat (apply andb_prop in Hacc as [Hacc ?]).
    apply negb_true_iff in Hacc.
    split; tables; auto; now apply NoDup_map_snoc.
  - destruct Hinv as [K1 K2 K3 K4 K5 K6 K7].
    split; tables; auto; rewrite map_updated; auto; intros o; apply Hset.
  - unfold insertRestaurant.
    destruct (restaurantAccepted _ _) eqn:Hacc; [|exact Hinv].
    destruct Hinv as [K1 K2 K3 K4 K5 K6 K7].
    unfold restaurantAccepted in Hacc.
    repeat (apply andb_prop in Hacc as [Hacc ?]).
    repeat match goal with
           | H : negb _ = true |- _ => apply negb_true_iff in H
           end.
    split; tables; auto; now apply NoDup_map_snoc.
  - unfold updateRestaurants.
    destruct (restaurantUpdateAccepted _ _ _) eqn:Hacc; [|exact Hinv].
    destruct Hinv as [K1 K2 K3 K4 K5 K6 K7].
    split; tables; auto.
    + rewrite map_updated; auto.
    + apply updated_slugs_distinct; auto.
      now apply restaurantUpdateAccepted_spec.
  - destruct Hinv as [K1 K2 K3 K4 K5 K6 K7].
    unfold deleteRestaurants.
    split; tables; repeat apply NoDup_map_filter; auto.
  - unfold insertMenuCategory.
    destruct (categoryAccepted _ _ _) eqn:Hacc; [|exact Hinv].
    destruct Hinv as [K1 K2 K3 K4 K5 K6 K7].
    unfold categoryAccepted in Hacc.
    repeat (apply andb_prop in Hacc as [Hacc ?]).
    apply negb_true_iff in Hacc.
    split; tables; auto; now apply NoDup_map_snoc.
  - unfold updateMenuCategories.
    destruct (fits_numeric_10_2 _); [|exact Hinv].
    destruct Hinv as [K1 K2 K3 K4 K5 K6 K7].
    split; tables; auto. rewrite map_updated; auto. intros c; apply Hset.
  - destruct Hinv as [K1 K2 K3 K4 K5 K6 K7].
    split; tables; repeat apply NoDup_map_filter; auto.
  - unfold insertMenuItem.
    destruct (menuItemAccepted _ _ _ _) eqn:Hacc; [|exact Hinv].
    destruct Hinv as [K1 K2 K3 K4 K5 K6 K7].
    unfold menuItemAccepted in Hacc.
    repeat (apply andb_prop in Hacc as [Hacc ?]).
    apply negb_true_iff in Hacc.
    split; tables; auto; now apply NoDup_map_snoc.
  - unfold updateMenuItems. destruct (_ && _); [|exact Hinv].
    destruct Hinv as [K1 K2 K3 K4 K5 K6 K7].
    split; tables; auto. rewrite map_updated; auto. intros mi; apply Hset.
  - unfold updateMenuItems. destruct (_ && _); [|exact Hinv].
    destruct Hinv as [K1 K2 K3 K4 K5 K6 K7].
    split; tables; auto. rewrite map_updated; auto. intros mi; apply Hset.
  - destruct Hinv as [K1 K2 K3 K4 K5 K6 K7].
    split; tables; repeat apply NoDup_map_filter; auto.
Qed.

Lemma step_filed (db db' : Db) :
  Step db db' ->
  Referenced db -> Keyed db -> ItemsFiledAtHome db -> ItemsFiledAtHome db'.
Proof.
  intros Hstep Href Hkey Hinv.
  destruct Hstep as
    [ env v Hs | env d oid | id set Hset | row | id set Hset | p
    | dn row | id dn set Hset | p | pr dn row c Hc Hrid
    | id ns cat set existing c Hex Hc Hrid Hset | id set Hset | p ];
    unfold ItemsFiledAtHome in *.
  - unfold insertOrder. destruct (orderAccepted _ _); exact Hinv.
  - unfold insertOrderItem. destruct (orderItemAccepted _ _); exact Hinv.
  - exact Hinv.
  - unfold insertRestaurant. destruct (restaurantAccepted _ _); exact Hinv.
  - unfold updateRestaurants.
    destruct (restaurantUpdateAccepted _ _ _); exact Hinv.
  - unfold deleteRestaurants. tables. intros mi c Hmi Hc.
    repeat (apply filter_In in Hmi as [Hmi _]).
    repeat (apply filter_In in Hc as [Hc _]). auto.
  - unfold insertMenuCategory.
    destruct (categoryAccepted _ _ _) eqn:Hacc; [|exact Hinv].
    tables. intros mi c Hmi Hc E.
    apply in_app_or in Hc as [Hc | [<- | []]]; auto.
    unfold categoryAccepted in Hacc.
    repeat (apply andb_prop in Hacc as [Hacc ?]).
    apply negb_true_iff in Hacc. rewrite hasId_false in Hacc.
    pose proof (ref_item_category db Href mi Hmi) as Hcat.
    apply hasId_true in Hcat as (c0 & Hc0 & E0).
    elim (Hacc c0 Hc0). congruence.
  - unfold updateMenuCategories.
    destruct (fits_numeric_10_2 _); [|exact Hinv].
    tables. intros mi c Hmi Hc E.
    apply in_updated in Hc as (c0 & Hc0 & [-> | [_ ->]]); auto.
    destruct (Hset c0) as [E1 E2]. rewrite E1 in E. rewrite E2. auto.
  - tables. intros mi c Hmi Hc.
    repeat (apply filter_In in Hmi as [Hmi _]).
    repeat (apply filter_In in Hc as [Hc _]). auto.
  - unfold insertMenuItem.
    destruct (menuItemAccepted _ _ _ _); [|exact Hinv].
    tables. intros mi c0 Hmi Hc0 E.
    apply in_app_or in Hmi as [Hmi | [<- | []]]; auto.
    apply findFirst_some in Hc as [Hc Hcid]. apply String.eqb_eq in Hcid.
    assert (c0 = c); [|now subst].
    apply (same_key_same_row mc_id (menuCategories db)); auto.
    + apply Hkey.
    + congruence.
  - unfold updateMenuItems. destruct (_ && _); [|exact Hinv].
    tables. intros mi c0 Hmi Hc0 E.
    apply in_updated in Hmi as (mi0 & Hmi0 & [-> | [Eid ->]]); auto.
    destruct (Hset mi0) as (_ & E2 & E3). rewrite E3 in E. rewrite E2.
    apply findFirst_some in Hc as [Hc Hcid]. apply String.eqb_eq in Hcid.
    apply findFirst_some in Hex as [Hex Hexid]. apply String.eqb_eq in Hexid.
    assert (c0 = c).
    { apply (same_key_same_row mc_id (menuCategories db)); auto.
      - apply Hkey.
      - congruence. }
    assert (mi0 = existing).
    { apply (same_key_same_row mi_id (menuItems db)); auto.
      - apply Hkey.
      - congruence. }
    now subst.
  - unfold updateMenuItems. destruct (_ && _); [|exact Hinv].
    tables. intros mi c0 Hmi Hc0 E.
    apply in_updated in Hmi as (mi0 & Hmi0 & [-> | [Eid ->]]); auto.
    destruct (Hset mi0) as (_ & E2 & E3). rewrite E3 in E. rewrite E2. auto.
  - tables. intros mi c Hmi Hc.
    apply filter_In in Hmi as [Hmi _]. auto.
Qed.

Lemma step_consistent (db db' : Db) :
  Step db db' -> Consistent db -> Consistent db'.
Proof.
  intros Hstep [Href Hkey Hst Hfiled]. split.
  - now apply (step_referenced db).
  - now apply (step_keyed db).
  - now apply (step_statuses db).
  - now apply (step_filed db).
Qed.

Lemma steps_consistent (db db' : Db) :
  Steps db db' -> Consistent db -> Consistent db'.
Proof.
  induction 1 as [|db db1 db2 Hstep _ IH]; [auto|].
  intros Hinv. apply IH. now apply (step_consistent db).
Qed.

Lemma emptyDb_consistent : Consistent emptyDb.
Proof.
  split.
  - split; intros x [].
  - split; constructor.
  - intros o [].
  - intros mi c [].
Qed.

Lemma afterAll_consistent (pf : Platform) (calls : list Call) :
  forall db, Consistent db -> Consistent (afterAll pf calls db).
Proof.
  unfold afterAll.
  induction calls as [|c calls IH]; intros db Hinv; cbn; [exact Hinv|].
  apply IH. apply (steps_consistent db); [apply call_steps | exact Hinv].
Qed.

(* ================================================================== *)
(** ** Invariants of the data base under the writing procedures *)

Lemma steps_referenced (db db' : Db) :
  Steps db db' -> Referenced db -> Referenced db'.
Proof.
  induction 1 as [|db db1 db2 Hstep _ IH]; [auto|].
  intros Hinv. apply IH. now apply (step_referenced db).
Qed.

Lemma steps_keyed (db db' : Db) : Steps db db' -> Keyed db -> Keyed db'.
Proof.
  induction 1 as [|db db1 db2 Hstep _ IH]; [auto|].
  intros Hinv. apply IH. now apply (step_keyed db).
Qed.

Lemma steps_statuses (db db' : Db) :
  Steps db db' -> StatusesKnown db -> StatusesKnown db'.
Proof.
  induction 1 as [|db db1 db2 Hstep _ IH]; [auto|].
  intros Hinv. apply IH. now apply (step_statuses db).
Qed.

Lemma db1_consistent : Consistent Scenario.db1.
Proof.
  split.
  - split; intros x Hin; cbn in Hin;
      repeat (destruct Hin as [<- | Hin]; [reflexivity|]); destruct Hin.
  - split; cbn; repeat constructor; cbn; intuition discriminate.
  - intros o [<- | []]. now exists PENDING.
  - intros mi c Hmi [<- | []] _. cbn in Hmi.
    repeat (destruct Hmi as [<- | Hmi]; [reflexivity|]). destruct Hmi.
Qed.

(** X1.  References stay valid.  If every category, menu item, order and
    order item of the data base refers to rows that exist, then so it is
    after any sequence of calls of the thirteen writing procedures, by any
    callers, with any inputs, whether the calls succeed or fail (a failed
    [placeOrder] included). *)
Theorem calls_keep_references :
  forall (pf : Platform) (calls : list Call) (db : Db),
    Referenced db -> Referenced (afterAll pf calls db).
Proof.
  intros pf calls. unfold afterAll.
  induction calls as [|c calls IH]; intros db Hinv; cbn; [exact Hinv|].
  apply IH. apply (steps_referenced db); [apply call_steps | exact Hinv].
Qed.

Lemma calls_keep_references_witness :
  Referenced (afterAll Demo.platform Demo.afternoon Scenario.db1).
Proof.
  apply calls_keep_references. apply db1_consistent.
Defined.

(** X2.  Keys stay unique.  If no two rows of a table share an id, no two
    restaurants a slug and no two orders an order number, then so it is
    after any sequence of calls of the writing procedures. *)
Theorem calls_keep_keys :
  forall (pf : Platform) (calls : list Call) (db : Db),
    Keyed db -> Keyed (afterAll pf calls db).
Proof.
  intros pf calls. unfold afterAll.
  induction calls as [|c calls IH]; intros db Hinv; cbn; [exact Hinv|].
  apply IH. apply (steps_keyed db); [apply call_steps | exact Hinv].
Qed.

Lemma calls_keep_keys_witness :
  Keyed (afterAll Demo.platform Demo.afternoon Scenario.db1).
Proof.
  apply calls_keep_keys. apply db1_consistent.
Defined.

(** X3.  Statuses stay within the enumeration.  If the status of every
    order is one of PENDING, PREPARING, READY, COMPLETED, CANCELLED, then
    so it is after any sequence of calls: [placeOrder] writes PENDING,
    [updateStatus] a member of the enumeration, [cancelOrder] CANCELLED,
    and nothing else writes a status.  So [validTransitions] always has an
    entry for the status that [updateStatus] reads. *)
Theorem calls_keep_statuses :
  forall (pf : Platform) (calls : list Call) (db : Db),
    StatusesKnown db ->
    StatusesKnown (afterAll pf calls db)
    /\ forall o, In o (orders (afterAll pf calls db)) ->
         validTransitions (o_status o) <> None.
Proof.
  intros pf calls db Hinv.
  assert (H : StatusesKnown (afterAll pf calls db)).
  { revert db Hinv. unfold afterAll.
    induction calls as [|c calls IH]; intros db Hinv; cbn; [exact Hinv|].
    apply IH. apply (steps_statuses db); [apply call_steps | exact Hinv]. }
  split; [exact H|].
  intros o Hin. destruct (H o Hin) as [s ->]. now destruct s.
Qed.

Lemma calls_keep_statuses_witness :
  StatusesKnown (afterAll Demo.platform Demo.afternoon Scenario.db1).
Proof.
  apply calls_keep_statuses. apply db1_consistent.
Defined.

(** X4.  Menu items stay filed under a category of their own restaurant.
    In a data base with valid references and unique keys where every menu
    item and the category it is filed under belong to one restaurant, the
    same holds after any sequence of calls: [createItem] and [updateItem]
    refuse a category of another restaurant, and no procedure moves an
    item or a category to another restaurant. *)
Theorem calls_keep_items_filed :
  forall (pf : Platform) (calls : list Call) (db : Db),
    Consistent db ->
    ItemsFiledAtHome (afterAll pf calls db).
Proof.
  intros pf calls db Hinv.
  apply (afterAll_consistent pf calls db Hinv).
Qed.

Lemma calls_keep_items_filed_witness :
  ItemsFiledAtHome (afterAll Demo.platform Demo.afternoon Scenario.db1).
Proof.
  apply calls_keep_items_filed. apply db1_consistent.
Defined.

(* ================================================================== *)
(** ** The queries of the order router *)





















(* ================================================================== *)
(** ** How the procedures of the order router compose *)

Lemma findFirst_snoc_new {A : Type} (key : A -> string) (rows : list A)
    (row : A) :
  hasId key (key row) rows = false ->
  findFirst (fun x => key x =? key row) (rows ++ [row]) = Some row.
Proof.
  unfold findFirst, hasId.
  induction rows as [|x rows IH]; cbn.
  - now rewrite String.eqb_refl.
  - intros H. apply orb_false_iff in H as [-> H]. now apply IH.
Qed.

Lemma findFirst_grows {A : Type} (p : A -> bool) (rows more : list A)
    (row : A) :
  findFirst p rows = Some row -> findFirst p (rows ++ more) = Some row.
Proof.
  unfold findFirst. induction rows as [|x rows IH]; cbn; [discriminate|].
  destruct (p x); auto.
Qed.









(** What a status change keeps of an order row. *)
Lemma updated_orders_keep {B : Type} (f : Order -> B) (id : string)
    (set : Order -> Order) (rows : list Order) :
  (forall o, f (set o) = f o) ->
  map f (map (fun o => if o_id o =? id then set o else o) rows) = map f rows.
Proof.
  intros Hset. rewrite map_map. apply map_ext.
  intros o. destruct (o_id o =? id); [apply Hset | reflexivity].
Qed.

Lemma cancelOrder_db (env : Env) (ctx : Context) (input : CancelOrderInput)
    (db : Db) :
  snd (cancelOrder env ctx input db) = db
  \/ snd (cancelOrder env ctx input db)
     = snd (updateOrders (co_id input) (setCancelled env (co_reason input))
              db).
Proof.
  unfold cancelOrder.
  destruct (protectedProcedure_cases (fun _ => true)
              (cancelOrderResolver env) ctx input db)
    as [[e ->] | (u & _ & _ & ->)]; [now left|].
  unfold cancelOrderResolver, bind, query, sessionUser, signedIn; cbn.
  destruct (findFirst _ (orders db)) as [o|]; [|now left]. cbn.
  destruct (negb (o_customerId o =? u_id u)); [now left|].
  destruct (negb (o_status o =? "PENDING")); [now left|].
  now right.
Qed.

Lemma updateStatus_db (env : Env) (ctx : Context) (input : UpdateStatusInput)
    (db : Db) :
  snd (updateStatus env ctx input db) = db
  \/ snd (updateStatus env ctx input db)
     = snd (updateOrders (us_id input) (setStatus env (us_status input)) db).
Proof.
  unfold updateStatus.
  destruct (ownerProcedure_cases (fun _ => true) (updateStatusResolver env)
              ctx input db) as [[e ->] | (u & _ & _ & _ & ->)]; [now left|].
  unfold updateStatusResolver, orderWithRestaurant, bind, query, sessionUser,
    signedIn; cbn.
  destruct (findFirst _ (orders db)) as [o|]; [|now left].
  destruct (findFirst _ (restaurants db)) as [r|]; [|now left]. cbn.
  destruct (negb (r_ownerId r =? u_id u)); [now left|].
  destruct (validTransitions (o_status o)) as [allowed|]; [|now left].
  destruct (negb (includes allowed _)); [now left|].
  now right.
Qed.

(** X11.  A status change is local.  Whatever the caller and the input,
    after [updateStatus] or [cancelOrder] the restaurants, the menu and the
    item rows of all orders are as before, and every order has kept its id,
    order number, total amount, customer fields, restaurant, customer and
    creation time; an order with another id is unchanged altogether.  The
    two procedures write nothing but the status, the notes, the two time
    stamps [updatedAt] and [actualDeliveryTime] of the orders with the
    given id. *)
Theorem status_changes_are_local :
  forall (env : Env) (ctx : Context) (db : Db),
    let unchanged (id : string) (db' : Db) :=
      restaurants db' = restaurants db
      /\ menuCategories db' = menuCategories db
      /\ menuItems db' = menuItems db
      /\ orderItems db' = orderItems db
      /\ map orderCore (orders db') = map orderCore (orders db)
      /\ filter (fun o => negb (o_id o =? id)) (orders db')
         = filter (fun o => negb (o_id o =? id)) (orders db) in
    (forall input : UpdateStatusInput,
       unchanged (us_id input) (snd (updateStatus env ctx input db)))
    /\ (forall input : CancelOrderInput,
          unchanged (co_id input) (snd (cancelOrder env ctx input db))).
Proof.
  intros env ctx db unchanged.
  assert (Hloc : forall id set,
            (forall o, orderCore (set o) = orderCore o) ->
            unchanged id (snd (updateOrders id set db))).
  { intros id set Hset. unfold unchanged, updateOrders; cbn.
    repeat split.
    - now apply updated_orders_keep.
    - induction (orders db) as [|o rows IH]; cbn; [reflexivity|].
      destruct (o_id o =? id) eqn:E; cbn.
      + assert (Ei : o_id (set o) = o_id o).
        { specialize (Hset o). unfold orderCore in Hset. congruence. }
        now rewrite Ei, E.
      + rewrite E; cbn. now rewrite IH. }
  assert (Hrefl : forall id, unchanged id db) by (intros id; now repeat split).
  split; intros input.
  - destruct (updateStatus_db env ctx input db) as [-> | ->];
      [apply Hrefl | apply Hloc; reflexivity].
  - destruct (cancelOrder_db env ctx input db) as [-> | ->];
      [apply Hrefl | apply Hloc; reflexivity].
Qed.

(* ================================================================== *)
(** ** The owner-only procedures of the restaurant router *)

Lemma findFirst_hasId {A : Type} (key : A -> string) (k : string)
    (rows : list A) :
  findFirst (fun x => key x =? k) rows = None <-> hasId key k rows = false.
Proof.
  unfold findFirst, hasId.
  induction rows as [|x rows IH]; cbn; [tauto|].
  destruct (key x =? k); cbn; [split; discriminate | exact IH].
Qed.

Lemma restaurant_create_run (pf : Platform) (env : Env) (ctx : Context)
    (u : User) (input : RestaurantOwner.CreateInput) (db : Db) :
  identity ctx = Some u ->
  u_role u = Some "OWNER" ->
  RestaurantOwner.createValid pf input = true ->
  RestaurantOwner.create pf env ctx input db
  = if hasId r_slug (RestaurantOwner.c_slug input) (restaurants db)
    then (Err (mkTRPCError CONFLICT
                 "A restaurant with this slug already exists"), db)
    else insertRestaurant (RestaurantOwner.newRestaurant env u input) db.
Proof.
  intros Hid Hrole Hv. unfold RestaurantOwner.create.
  rewrite (ownerProcedure_owner _ _ _ _ _ Hid Hrole).
  unfold publicProcedure. rewrite Hv.
  unfold RestaurantOwner.createResolver, bind, query, sessionUser, signedIn;
    cbn.
  destruct (findFirst _ (restaurants db)) as [r|] eqn:Hr; cbn.
  - destruct (hasId r_slug _ (restaurants db)) eqn:Hh; [reflexivity|].
    apply findFirst_hasId in Hh. congruence.
  - apply findFirst_hasId in Hr. now rewrite Hr.
Qed.

(** X12.  [restaurant.create] by a caller who passes the owner gate, with
    a well-formed input: CONFLICT when some restaurant already has the
    slug, and then nothing is written; otherwise, when the new id is free
    and the slug has at most 255 characters, the restaurant is inserted
    with the caller as its owner and [isActive] true.  After a successful
    call, a second [create] with the same slug fails with CONFLICT,
    whichever owner makes it. *)
Theorem restaurant_create_behaviour :
  forall (pf : Platform) (env : Env) (ctx : Context) (u : User)
         (input : RestaurantOwner.CreateInput) (db : Db),
    identity ctx = Some u ->
    u_role u = Some "OWNER" ->
    RestaurantOwner.createValid pf input = true ->
    let res := RestaurantOwner.create pf env ctx input db in
    let slug := RestaurantOwner.c_slug input in
    (hasId r_slug slug (restaurants db) = true ->
       errorCode (fst res) = Some CONFLICT /\ snd res = db)
    /\
    (hasId r_slug slug (restaurants db) = false ->
     hasId r_id (nanoid env 0) (restaurants db) = false ->
     (charLength slug <= 255)%nat ->
       exists r,
         fst res = Ok r
         /\ restaurants (snd res) = restaurants db ++ [r]
         /\ r_slug r = slug
         /\ r_ownerId r = u_id u
         /\ r_isActive r = true)
    /\
    (isOk (fst res) = true ->
     forall (env' : Env) (ctx' : Context) (u' : User)
            (input' : RestaurantOwner.CreateInput),
       identity ctx' = Some u' ->
       u_role u' = Some "OWNER" ->
       RestaurantOwner.createValid pf input' = true ->
       RestaurantOwner.c_slug input' = slug ->
       errorCode (fst (RestaurantOwner.create pf env' ctx' input' (snd res)))
       = Some CONFLICT).
Proof.
  intros pf env ctx u input db Hid Hrole Hv res slug. subst res slug.
  rewrite (restaurant_create_run pf env ctx u input db Hid Hrole Hv).
  split; [|split].
  - intros ->. now split.
  - intros Hslug Hfree Hlen. rewrite Hslug.
    unfold insertRestaurant, restaurantAccepted; cbn.
    rewrite Hfree, Hslug; cbn.
    apply Nat.leb_le in Hlen. rewrite Hlen.
    eexists. now repeat split.
  - destruct (hasId r_slug _ (restaurants db)) eqn:Hslug; [discriminate|].
    unfold insertRestaurant.
    destruct (restaurantAccepted _ _); [|discriminate].
    intros _ env' ctx' u' input' Hid' Hrole' Hv' Eslug.
    rewrite (restaurant_create_run pf env' ctx' u' input' _ Hid' Hrole' Hv').
    cbn [snd restaurants]. rewrite Eslug, hasId_app.
    assert (Hnew : hasId r_slug (RestaurantOwner.c_slug input)
                     [RestaurantOwner.newRestaurant env u input] = true).
    { unfold hasId; cbn. now rewrite String.eqb_refl. }
    rewrite Hnew, orb_true_r. reflexivity.
Qed.

Lemma restaurant_create_behaviour_witness :
  errorCode
    (fst (RestaurantOwner.create Demo.platform Scenario.env0
            (signedIn Scenario.olga) Demo.bistro
            (snd (RestaurantOwner.create Demo.platform Scenario.env0
                    (signedIn Scenario.olga) Demo.bistro Scenario.db0))))
  = Some CONFLICT.
Proof.
  refine (proj2 (proj2
            (restaurant_create_behaviour Demo.platform Scenario.env0
               (signedIn Scenario.olga) Scenario.olga Demo.bistro
               Scenario.db0 eq_refl eq_refl eq_refl))
            eq_refl Scenario.env0 (signedIn Scenario.olga) Scenario.olga
            Demo.bistro eq_refl eq_refl eq_refl eq_refl).
Defined.

Lemma filter_none {A : Type} (p : A -> bool) (rows : list A) :
  (forall x, In x rows -> p x = false) -> filter p rows = [].
Proof.
  induction rows as [|x rows IH]; cbn; [reflexivity|].
  intros H. rewrite (H x (or_introl eq_refl)). apply IH.
  intros y Hy. apply H. now right.
Qed.



Lemma no_other_slug (db : Db) (id slug : string)
    (set : Restaurant -> Restaurant) :
  (forall r, r_slug (set r) = slug) ->
  (charLength slug <= 255)%nat ->
  (forall r', In r' (restaurants db) -> r_slug r' = slug -> r_id r' = id) ->
  restaurantUpdateAccepted db id set = true.
Proof.
  intros Hset Hlen Hfree. unfold restaurantUpdateAccepted.
  apply forallb_forall. intros r Hr.
  destruct (r_id r =? id); [|reflexivity].
  rewrite Hset. apply Nat.leb_le in Hlen. rewrite Hlen; cbn [andb].
  apply negb_true_iff.
  destruct (existsb _ (restaurants db)) eqn:E; [|reflexivity].
  apply existsb_exists in E as (r' & Hr' & E).
  apply andb_prop in E as [Hid Hslug].
  apply String.eqb_eq in Hslug. apply negb_true_iff in Hid.
  rewrite (Hfree r' Hr' Hslug), String.eqb_refl in Hid. discriminate.
Qed.

Lemma slugConflict_hasId (input : RestaurantOwner.UpdateInput)
    (rows : list Restaurant) :
  findFirst (RestaurantOwner.slugConflictWhere input) rows = None
  <-> hasId r_slug (RestaurantOwner.up_slug input) rows = false.
Proof.
  unfold findFirst, hasId, RestaurantOwner.slugConflictWhere.
  induction rows as [|x rows IH]; cbn; [tauto|].
  rewrite andb_true_r.
  destruct (r_slug x =? _); cbn; [split; discriminate | exact IH].
Qed.

Lemma restaurant_update_run (pf : Platform) (env : Env) (ctx : Context)
    (u : User) (input : RestaurantOwner.UpdateInput) (db : Db) :
  identity ctx = Some u ->
  u_role u = Some "OWNER" ->
  RestaurantOwner.updateValid pf input = true ->
  RestaurantOwner.update pf env ctx input db
  = match findFirst (fun r => r_id r =? RestaurantOwner.up_id input)
            (restaurants db) with
    | None => (Err (mkTRPCError NOT_FOUND "Restaurant not found"), db)
    | Some existing =>
        if negb (r_ownerId existing =? u_id u) then
          (Err (mkTRPCError FORBIDDEN
                  "You can only update your own restaurants"), db)
        else if negb (RestaurantOwner.up_slug input =? r_slug existing)
                && hasId r_slug (RestaurantOwner.up_slug input)
                     (restaurants db) then
          (Err (mkTRPCError CONFLICT
                  "A restaurant with this slug already exists"), db)
        else
          (updated <- updateRestaurants (RestaurantOwner.up_id input)
                        (RestaurantOwner.setRestaurant env input) ;;
           ret (firstRow updated)) db
    end.
Proof.
  intros Hid Hrole Hv. unfold RestaurantOwner.update.
  rewrite (ownerProcedure_owner _ _ _ _ _ Hid Hrole).
  unfold publicProcedure. rewrite Hv.
  unfold RestaurantOwner.updateResolver, bind at 1, query at 1.
  destruct (findFirst _ (restaurants db)) as [existing|]; [|reflexivity].
  unfold sessionUser, signedIn; cbn [ctx_session].
  destruct (negb (r_ownerId existing =? u_id u)); [reflexivity|].
  unfold bind at 1.
  destruct (negb (RestaurantOwner.up_slug input =? r_slug existing));
    cbn [andb]; [|reflexivity].
  unfold bind at 1, query at 1.
  destruct (findFirst (RestaurantOwner.slugConflictWhere input)
              (restaurants db)) eqn:Hc.
  - destruct (hasId r_slug _ (restaurants db)) eqn:Hh; [reflexivity|].
    apply slugConflict_hasId in Hh. congruence.
  - apply slugConflict_hasId in Hc. now rewrite Hc.
Qed.

(** X14.  [restaurant.update] by a caller who passes the owner gate, with
    a well-formed input, on a data base with unique keys: NOT_FOUND when
    the restaurant does not exist; FORBIDDEN when it is not the caller's;
    CONFLICT when the slug is changed to one that a restaurant already
    has; in these cases nothing is written.  Otherwise (the slug is kept,
    or the new one is free, and has at most 255 characters) the call
    succeeds: name and slug are replaced, an optional field that the input
    leaves out keeps its value, and id, owner and creation time are never
    changed. *)
Theorem restaurant_update_behaviour :
  forall (pf : Platform) (env : Env) (ctx : Context) (u : User)
         (input : RestaurantOwner.UpdateInput) (db : Db),
    Keyed db ->
    identity ctx = Some u ->
    u_role u = Some "OWNER" ->
    RestaurantOwner.updateValid pf input = true ->
    let res := RestaurantOwner.update pf env ctx input db in
    let found :=
      findFirst (fun r => r_id r =? RestaurantOwner.up_id input)
                (restaurants db) in
    let slug := RestaurantOwner.up_slug input in
    (found = None -> errorCode (fst res) = Some NOT_FOUND /\ snd res = db)
    /\
    (forall existing, found = Some existing ->
       (r_ownerId existing <> u_id u ->
          errorCode (fst res) = Some FORBIDDEN /\ snd res = db)
       /\
       (r_ownerId existing = u_id u ->
          (slug <> r_slug existing ->
           hasId r_slug slug (restaurants db) = true ->
             errorCode (fst res) = Some CONFLICT /\ snd res = db)
          /\
          (slug = r_slug existing
           \/ hasId r_slug slug (restaurants db) = false ->
           (charLength slug <= 255)%nat ->
             let updated := RestaurantOwner.setRestaurant env input existing in
             fst res = Ok (Some updated)
             /\ restaurants (snd res)
                = map (fun r => if r_id r =? RestaurantOwner.up_id input
                                then RestaurantOwner.setRestaurant env input r
                                else r)
                      (restaurants db)
             /\ r_id updated = r_id existing
             /\ r_ownerId updated = r_ownerId existing
             /\ r_createdAt updated = r_createdAt existing
             /\ r_name updated = RestaurantOwner.up_name input
             /\ r_slug updated = slug
             /\ (RestaurantOwner.up_phone input = None ->
                   r_phone updated = r_phone existing)
             /\ (RestaurantOwner.up_isActive input = None ->
                   r_isActive updated = r_isActive existing)))).
Proof.
  intros pf env ctx u input db Hkey Hid Hrole Hv res found slug.
  subst res found slug.
  rewrite (restaurant_update_run pf env ctx u input db Hid Hrole Hv).
  destruct (findFirst _ (restaurants db)) as [existing|] eqn:Hex.
  2:{ split; [now split | discriminate]. }
  split; [discriminate|]. intros ex [= <-].
  split.
  { intros Hown. now rewrite (negb_eqb_true _ _ Hown). }
  intros Hown.
  assert (Hmine : negb (r_ownerId existing =? u_id u) = false)
    by now rewrite Hown, String.eqb_refl.
  rewrite Hmine.
  apply findFirst_some in Hex as Hex'. destruct Hex' as [Hin Heid].
  apply String.eqb_eq in Heid.
  split.
  - intros Hslug Hhas. rewrite (negb_eqb_true _ _ Hslug), Hhas. now split.
  - intros Hfree Hlen.
    assert (Hacc : restaurantUpdateAccepted db (RestaurantOwner.up_id input)
                     (RestaurantOwner.setRestaurant env input) = true).
    { apply (no_other_slug db _ (RestaurantOwner.up_slug input));
        [reflexivity | exact Hlen |].
      intros r' Hr' E. destruct Hfree as [Hsame | Hnone].
      - rewrite <- Heid. f_equal.
        apply (same_key_same_row r_slug (restaurants db)); auto.
        + apply Hkey.
        + congruence.
      - rewrite hasId_false in Hnone. now elim (Hnone r' Hr'). }
    assert (Hpass : negb (RestaurantOwner.up_slug input =? r_slug existing)
                    && hasId r_slug (RestaurantOwner.up_slug input)
                         (restaurants db) = false).
    { destruct Hfree as [-> | ->]; [|apply andb_false_r].
      now rewrite String.eqb_refl. }
    rewrite Hpass.
    unfold bind, updateRestaurants, ret. rewrite Hacc.
    cbn [fst snd restaurants].
    rewrite (firstRow_findMany _ _ _ _ Hex).
    cbn zeta. do 7 (split; [reflexivity|]).
    split; intros E; cbn; now rewrite E.
Qed.

(** Olga renames the cafe and leaves the phone out; the phone stays. *)
Lemma restaurant_update_behaviour_witness :
  exists updated,
    fst (RestaurantOwner.update Demo.platform Scenario.env0
           (signedIn Scenario.olga)
           (RestaurantOwner.mkUpdateInput "r1" "Cafe Uno" None "cafe1"
              None None None None None None)
           Scenario.db1)
    = Ok (Some updated)
    /\ r_phone updated = r_phone Scenario.cafe.
Proof.
  eexists.
  destruct (proj2 (proj2 (proj2
              (restaurant_update_behaviour Demo.platform Scenario.env0
                 (signedIn Scenario.olga) Scenario.olga
                 (RestaurantOwner.mkUpdateInput "r1" "Cafe Uno" None "cafe1"
                    None None None None None None)
                 Scenario.db1 (con_keyed _ db1_consistent)
                 eq_refl eq_refl eq_refl)
              Scenario.cafe eq_refl)
              eq_refl) (or_introl eq_refl))
    as (Hrun & _); [apply Nat.leb_le; vm_compute; reflexivity|].
  split; [exact Hrun | reflexivity].
Defined.

(* ------------------------------------------------------------------ *)
(** *** Deleting a restaurant *)

Lemma filter_all {A : Type} (p : A -> bool) (rows : list A) :
  (forall x, In x rows -> p x = true) -> filter p rows = rows.
Proof.
  induction rows as [|x rows IH]; cbn; [reflexivity|].
  intros H. rewrite (H x (or_introl eq_refl)). f_equal. apply IH.
  intros y Hy. apply H. now right.
Qed.

Lemma filter_twice {A : Type} (p q : A -> bool) (rows : list A) :
  filter q (filter p rows) = filter (fun x => p x && q x) rows.
Proof.
  induction rows as [|x rows IH]; cbn; [reflexivity|].
  destruct (p x); cbn; [destruct (q x)|]; now rewrite IH.
Qed.

Lemma filter_same {A : Type} (p q : A -> bool) (rows : list A) :
  (forall x, In x rows -> p x = q x) -> filter p rows = filter q rows.
Proof.
  induction rows as [|x rows IH]; cbn; [reflexivity|].
  intros H. rewrite (H x (or_introl eq_refl)), IH; [reflexivity|].
  intros y Hy. apply H. now right.
Qed.

Lemma inIds_of_one {A : Type} (key : A -> string) (id x : string)
    (rows : list A) :
  hasId key id rows = true ->
  inIds x (map key (filter (fun r => key r =? id) rows)) = (x =? id).
Proof.
  intros Hhas. apply hasId_true in Hhas as (row & Hin & Hk).
  destruct (String.eqb_spec x id) as [-> | Hne].
  - apply inIds_true, in_map_iff. exists row. split; [exact Hk|].
    apply filter_In. split; [exact Hin|]. now apply String.eqb_eq.
  - destruct (inIds x _) eqn:E; [|reflexivity].
    apply inIds_true, in_map_iff in E as (r & Hr & Hf).
    apply filter_In in Hf as [_ Hf]. apply String.eqb_eq in Hf.
    congruence.
Qed.

Lemma survivor {A : Type} (key : A -> string) (p : A -> bool) (k : string)
    (rows : list A) :
  NoDup (map key rows) ->
  hasId key k rows = true ->
  negb (inIds k (map key (filter p rows)))
  = hasId key k (filter (fun row => negb (p row)) rows).
Proof.
  intros Hkey Hhas.
  destruct (inIds k (map key (filter p rows))) eqn:E; cbn [negb].
  - symmetry. apply hasId_false. intros row' Hin' Hk'.
    apply filter_In in Hin' as [Hin' Hp'].
    apply inIds_true, in_map_iff in E as (row & Hk & Hf).
    apply filter_In in Hf as [Hin Hp].
    assert (row = row')
      by (apply (same_key_same_row key rows); auto; congruence).
    subst. rewrite Hp in Hp'. discriminate.
  - symmetry. now apply kept_row_has_id.
Qed.

Lemma deleteRestaurants_one (db : Db) (id : string) :
  Consistent db ->
  hasId r_id id (restaurants db) = true ->
  let db' := deleteRestaurants (fun r => r_id r =? id) db in
  restaurants db'
  = filter (fun r => negb (r_id r =? id)) (restaurants db)
  /\ menuCategories db'
     = filter (fun c => negb (mc_restaurantId c =? id)) (menuCategories db)
  /\ menuItems db'
     = filter (fun mi => negb (mi_restaurantId mi =? id)) (menuItems db)
  /\ orders db'
     = filter (fun o => negb (o_restaurantId o =? id)) (orders db)
  /\ orderItems db'
     = filter (fun oi => hasId o_id (oi_orderId oi) (orders db')
                         && hasId mi_id (oi_menuItemId oi) (menuItems db'))
              (orderItems db).
Proof.
  intros [Href Hkey _ Hfiled] Hhas db'.
  assert (Hgone : forall x,
            inIds x (map r_id (filter (fun r => r_id r =? id)
                                      (restaurants db)))
            = (x =? id))
    by (intros x; now apply inIds_of_one).
  assert (Hitems :
    forall mi,
      In mi (filter (fun mi => negb (mi_restaurantId mi =? id))
                    (menuItems db)) ->
      inIds (mi_categoryId mi)
        (map mc_id (filter (fun c => mc_restaurantId c =? id)
                           (menuCategories db))) = false).
  { intros mi Hmi. apply filter_In in Hmi as [Hmi Hne].
    destruct (inIds _ _) eqn:E; [|reflexivity].
    apply inIds_true, in_map_iff in E as (c & Hc & Hf).
    apply filter_In in Hf as [Hcin Hcr]. apply String.eqb_eq in Hcr.
    rewrite <- Hcr, (Hfiled mi c Hmi Hcin Hc), String.eqb_refl in Hne.
    discriminate. }
  assert (Ho : orders db'
               = filter (fun o => negb (o_restaurantId o =? id)) (orders db)).
  { subst db'. unfold deleteRestaurants. tables.
    apply filter_same. intros o _. now rewrite Hgone. }
  assert (Hm : menuItems db'
               = filter (fun mi => negb (mi_restaurantId mi =? id))
                        (menuItems db)).
  { subst db'. unfold deleteRestaurants. tables.
    rewrite (filter_same _ (fun mi => negb (mi_restaurantId mi =? id))
               (menuItems db)) by (intros mi _; now rewrite Hgone).
    apply filter_all. intros mi Hmi. apply negb_true_iff.
    rewrite (filter_same _ (fun c => mc_restaurantId c =? id)
               (menuCategories db)) by (intros c _; apply Hgone).
    now apply Hitems. }
  split; [reflexivity|].
  split.
  { subst db'. unfold deleteRestaurants. tables.
    apply filter_same. intros c _. now rewrite Hgone. }
  split; [exact Hm|]. split; [exact Ho|].
  rewrite Ho, Hm.
  subst db'. unfold deleteRestaurants. tables. tables.
  rewrite (filter_same _ (fun mi => negb (mi_restaurantId mi =? id))
             (menuItems db)) by (intros mi _; now rewrite Hgone).
  rewrite (filter_same (fun c => inIds (mc_restaurantId c) _)
             (fun c => mc_restaurantId c =? id)
             (menuCategories db)) by (intros c _; apply Hgone).
  rewrite (filter_none (fun mi => inIds (mi_categoryId mi) _)
             (filter (fun mi => negb (mi_restaurantId mi =? id))
                     (menuItems db)) Hitems).
  cbn [map]. rewrite (filter_all (fun oi => negb (inIds _ []))) by reflexivity.
  rewrite filter_twice. apply filter_same. intros oi Hoi.
  rewrite (filter_same (fun o => inIds (o_restaurantId o) _)
             (fun o => o_restaurantId o =? id) (orders db))
    by (intros o _; apply Hgone).
  rewrite (filter_same (fun mi => inIds (mi_restaurantId mi) _)
             (fun mi => mi_restaurantId mi =? id) (menuItems db))
    by (intros mi _; apply Hgone).
  f_equal.
  - apply survivor; [apply Hkey | now apply (ref_orderItem_order _ Href)].
  - apply survivor;
      [apply Hkey | now apply (ref_orderItem_menuItem _ Href)].
Qed.

Lemma restaurant_delete_run (ctx : Context) (u : User) (id : string)
    (db : Db) :
  identity ctx = Some u ->
  u_role u = Some "OWNER" ->
  RestaurantOwner.delete ctx id db
  = match findFirst (fun r => r_id r =? id) (restaurants db) with
    | None => (Err (mkTRPCError NOT_FOUND "Restaurant not found"), db)
    | Some existing =>
        if negb (r_ownerId existing =? u_id u) then
          (Err (mkTRPCError FORBIDDEN
                  "You can only delete your own restaurants"), db)
        else
          (Ok (successPayload "Restaurant deleted successfully"),
           deleteRestaurants (fun r => r_id r =? id) db)
    end.
Proof.
  intros Hid Hrole. unfold RestaurantOwner.delete.
  rewrite (ownerProcedure_owner _ _ _ _ _ Hid Hrole).
  unfold publicProcedure, RestaurantOwner.deleteResolver, bind at 1,
    query at 1.
  destruct (findFirst _ (restaurants db)) as [existing|]; [|reflexivity].
  unfold sessionUser, signedIn; cbn [ctx_session].
  destruct (negb (r_ownerId existing =? u_id u)); reflexivity.
Qed.

(** X15.  [restaurant.delete] by a caller who passes the owner gate, on a
    consistent data base: NOT_FOUND when the restaurant does not exist and
    FORBIDDEN when it is not the caller's, with nothing deleted.  For the
    caller's own restaurant the call succeeds and, with the cascades of
    the schema, exactly this is left: the other restaurants; the
    categories, menu items and orders of the other restaurants, in their
    order and unchanged; and the order items whose order and whose menu
    item are both still there. *)
Theorem restaurant_delete_cascades :
  forall (ctx : Context) (u : User) (id : string) (db : Db),
    Consistent db ->
    identity ctx = Some u ->
    u_role u = Some "OWNER" ->
    let res := RestaurantOwner.delete ctx id db in
    let found := findFirst (fun r => r_id r =? id) (restaurants db) in
    (found = None -> errorCode (fst res) = Some NOT_FOUND /\ snd res = db)
    /\
    (forall existing, found = Some existing ->
       (r_ownerId existing <> u_id u ->
          errorCode (fst res) = Some FORBIDDEN /\ snd res = db)
       /\
       (r_ownerId existing = u_id u ->
          fst res = Ok (successPayload "Restaurant deleted successfully")
          /\ restaurants (snd res)
             = filter (fun r => negb (r_id r =? id)) (restaurants db)
          /\ menuCategories (snd res)
             = filter (fun c => negb (mc_restaurantId c =? id))
                      (menuCategories db)
          /\ menuItems (snd res)
             = filter (fun mi => negb (mi_restaurantId mi =? id))
                      (menuItems db)
          /\ orders (snd res)
             = filter (fun o => negb (o_restaurantId o =? id)) (orders db)
          /\ orderItems (snd res)
             = filter (fun oi =>
                         hasId o_id (oi_orderId oi) (orders (snd res))
                         && hasId mi_id (oi_menuItemId oi)
                              (menuItems (snd res)))
                      (orderItems db))).
Proof.
  intros ctx u id db Hcon Hid Hrole res found. subst res found.
  rewrite (restaurant_delete_run ctx u id db Hid Hrole).
  destruct (findFirst _ (restaurants db)) as [existing|] eqn:Hex.
  2:{ split; [now split | discriminate]. }
  split; [discriminate|]. intros ex [= <-].
  split.
  { intros Hown. now rewrite (negb_eqb_true _ _ Hown). }
  intros Hown.
  assert (Hmine : negb (r_ownerId existing =? u_id u) = false)
    by now rewrite Hown, String.eqb_refl.
  rewrite Hmine. cbn [fst snd]. split; [reflexivity|].
  apply deleteRestaurants_one; [exact Hcon|].
  apply findFirst_some in Hex as [Hin Heq].
  apply hasId_true. exists existing. split; [exact Hin|].
  now apply String.eqb_eq.
Qed.

(** Olga deletes the cafe: its order and the order's items go with it. *)
Lemma restaurant_delete_cascades_witness :
  let res := RestaurantOwner.delete (signedIn Scenario.olga) "r1"
               Scenario.db1 in
  isOk (fst res) = true
  /\ orders (snd res) = []
  /\ orderItems (snd res) = [].
Proof.
  destruct (proj2 (proj2
              (restaurant_delete_cascades (signedIn Scenario.olga)
                 Scenario.olga "r1" Scenario.db1 db1_consistent
                 eq_refl eq_refl)
              Scenario.cafe eq_refl) eq_refl)
    as (Hrun & _ & _ & _ & Ho & Hoi).
  cbn zeta. rewrite Hrun, Hoi, Ho.
  split; [reflexivity|]. split; vm_compute; reflexivity.
Defined.

(* ================================================================== *)
(** ** The menu router *)









(* ------------------------------------------------------------------ *)
(** *** Creating and updating a menu item *)

Lemma createItem_run (pf : Platform) (env : Env) (ctx : Context) (u : User)
    (input : MenuRouter.CreateItemInput) (db : Db) :
  identity ctx = Some u ->
  u_role u = Some "OWNER" ->
  MenuRouter.createItemValid pf input = true ->
  MenuRouter.createItem pf env ctx input db
  = match findFirst (fun r => r_id r =? MenuRouter.ci_restaurantId input)
            (restaurants db) with
    | None => (Err (mkTRPCError NOT_FOUND "Restaurant not found"), db)
    | Some r =>
        if negb (r_ownerId r =? u_id u) then
          (Err (mkTRPCError FORBIDDEN
                  "You can only add items to your own restaurants"), db)
        else
          match findFirst (fun c => mc_id c =? MenuRouter.ci_categoryId input)
                  (menuCategories db) with
          | None =>
              (Err (mkTRPCError BAD_REQUEST
                      "Invalid category for this restaurant"), db)
          | Some c =>
              if negb (mc_restaurantId c =? MenuRouter.ci_restaurantId input)
              then (Err (mkTRPCError BAD_REQUEST
                           "Invalid category for this restaurant"), db)
              else insertMenuItem (MenuRouter.ci_price input)
                     (MenuRouter.ci_displayOrder input)
                     (MenuRouter.newItem pf env input) db
          end
    end.
Proof.
  intros Hid Hrole Hv. unfold MenuRouter.createItem.
  rewrite (ownerProcedure_owner _ _ _ _ _ Hid Hrole).
  unfold publicProcedure. rewrite Hv.
  unfold MenuRouter.createItemResolver, bind at 1, query at 1.
  destruct (findFirst _ (restaurants db)) as [r|]; [|reflexivity].
  unfold sessionUser, signedIn; cbn [ctx_session].
  destruct (negb (r_ownerId r =? u_id u)); [reflexivity|].
  unfold bind, query.
  destruct (findFirst _ (menuCategories db)) as [c|]; [|reflexivity].
  destruct (negb (mc_restaurantId c =? _)); reflexivity.
Qed.

(** X18.  [createItem] by a caller who passes the owner gate, with a
    well-formed input: NOT_FOUND when the restaurant does not exist;
    FORBIDDEN when it is not the caller's; BAD_REQUEST when the category
    does not exist or belongs to another restaurant; nothing is written in
    these cases.  Otherwise, when the new id is free and price and display
    order fit their columns, the item is appended to the menu items, filed
    under a category of its own restaurant, and no other table changes. *)
Theorem createItem_behaviour :
  forall (pf : Platform) (env : Env) (ctx : Context) (u : User)
         (input : MenuRouter.CreateItemInput) (db : Db),
    identity ctx = Some u ->
    u_role u = Some "OWNER" ->
    MenuRouter.createItemValid pf input = true ->
    let res := MenuRouter.createItem pf env ctx input db in
    let restaurant :=
      findFirst (fun r => r_id r =? MenuRouter.ci_restaurantId input)
                (restaurants db) in
    let category :=
      findFirst (fun c => mc_id c =? MenuRouter.ci_categoryId input)
                (menuCategories db) in
    (restaurant = None ->
       errorCode (fst res) = Some NOT_FOUND /\ snd res = db)
    /\
    (forall r, restaurant = Some r ->
       (r_ownerId r <> u_id u ->
          errorCode (fst res) = Some FORBIDDEN /\ snd res = db)
       /\
       (r_ownerId r = u_id u ->
          (category = None ->
             errorCode (fst res) = Some BAD_REQUEST /\ snd res = db)
          /\
          (forall c, category = Some c ->
             (mc_restaurantId c <> MenuRouter.ci_restaurantId input ->
                errorCode (fst res) = Some BAD_REQUEST /\ snd res = db)
             /\
             (mc_restaurantId c = MenuRouter.ci_restaurantId input ->
              hasId mi_id (nanoid env 0) (menuItems db) = false ->
              fits_numeric_10_2 (MenuRouter.ci_price input) = true ->
              fits_numeric_10_2 (MenuRouter.ci_displayOrder input) = true ->
                let item := MenuRouter.newItem pf env input in
                fst res = Ok item
                /\ menuItems (snd res) = menuItems db ++ [item]
                /\ mi_categoryId item = mc_id c
                /\ mi_restaurantId item = mc_restaurantId c
                /\ mi_price item = toDecimal pf (MenuRouter.ci_price input)
                /\ restaurants (snd res) = restaurants db
                /\ menuCategories (snd res) = menuCategories db
                /\ orders (snd res) = orders db
                /\ orderItems (snd res) = orderItems db)))).
Proof.
  intros pf env ctx u input db Hid Hrole Hv res restaurant category.
  subst res restaurant category.
  rewrite (createItem_run pf env ctx u input db Hid Hrole Hv).
  destruct (findFirst _ (restaurants db)) as [r|] eqn:Hr.
  2:{ split; [now split | discriminate]. }
  split; [discriminate|]. intros r' [= <-].
  split.
  { intros Hown. now rewrite (negb_eqb_true _ _ Hown). }
  intros Hown.
  assert (Hmine : negb (r_ownerId r =? u_id u) = false)
    by now rewrite Hown, String.eqb_refl.
  rewrite Hmine.
  destruct (findFirst _ (menuCategories db)) as [c|] eqn:Hc.
  2:{ split; [now split | discriminate]. }
  split; [discriminate|]. intros c' [= <-].
  split.
  { intros Hother. now rewrite (negb_eqb_true _ _ Hother). }
  intros Hsame Hfree Hprice Horder.
  assert (Hhome : negb (mc_restaurantId c
                         =? MenuRouter.ci_restaurantId input) = false)
    by now rewrite Hsame, String.eqb_refl.
  rewrite Hhome.
  assert (Hacc : menuItemAccepted db (MenuRouter.ci_price input)
                   (MenuRouter.ci_displayOrder input)
                   (MenuRouter.newItem pf env input) = true).
  { unfold menuItemAccepted.
    cbn [MenuRouter.newItem mi_id mi_categoryId mi_restaurantId].
    rewrite Hfree, Hprice, Horder. cbn [negb andb].
    apply andb_true_intro. split; apply hasId_true.
    - apply findFirst_some in Hc as [Hin E]. apply String.eqb_eq in E.
      now exists c.
    - apply findFirst_some in Hr as [Hin E]. apply String.eqb_eq in E.
      now exists r. }
  unfold insertMenuItem. rewrite Hacc. cbn zeta.
  cbn [fst snd restaurants menuCategories menuItems orders orderItems].
  apply findFirst_some in Hc as [_ E]. apply String.eqb_eq in E.
  repeat split; try reflexivity.
  - now cbn.
  - now cbn.
Qed.

(** Olga adds a salad to the mains of the cafe. *)
Lemma createItem_behaviour_witness :
  exists item,
    fst (MenuRouter.createItem Demo.platform Scenario.env0
           (signedIn Scenario.olga)
           (MenuRouter.mkCreateItemInput "Salad" None
              (div (ofZ 725) (ofZ 100)) None true (ofZ 0) None None None
              "c1" "r1")
           Scenario.db1)
    = Ok item
    /\ mi_price item = 725%Z.
Proof.
  eexists.
  destruct (proj2 (proj2 (proj2 (proj2
              (createItem_behaviour Demo.platform Scenario.env0
                 (signedIn Scenario.olga) Scenario.olga
                 (MenuRouter.mkCreateItemInput "Salad" None
                    (div (ofZ 725) (ofZ 100)) None true (ofZ 0) None None
                    None "c1" "r1")
                 Scenario.db1 eq_refl eq_refl eq_refl)
              Scenario.cafe eq_refl) eq_refl)
              Scenario.mains eq_refl) eq_refl)
    as (Hrun & _ & _ & _ & Hprice & _);
    [vm_compute; reflexivity | vm_compute; reflexivity
     | vm_compute; reflexivity |].
  split; [exact Hrun|].
  rewrite Hprice. vm_compute. reflexivity.
Defined.




(* ------------------------------------------------------------------ *)
(** *** Deleting a menu item or a category *)

Lemma findFirst_present {A : Type} (key : A -> string) (k : string)
    (rows : list A) (row : A) :
  findFirst (fun x => key x =? k) rows = Some row ->
  hasId key k rows = true.
Proof.
  intros H. apply findFirst_some in H as [Hin E].
  apply String.eqb_eq in E. apply hasId_true. now exists row.
Qed.








(* ------------------------------------------------------------------ *)
(** *** What the catalogue procedures leave alone *)

Lemma ordersKept_refl (db : Db) : OrdersKept db db.
Proof. now split. Qed.

Lemma ordersKept_trans (db1 db2 db3 : Db) :
  OrdersKept db1 db2 -> OrdersKept db2 db3 -> OrdersKept db1 db3.
Proof. intros [H1 H2] [H3 H4]. split; congruence. Qed.

Lemma insertRestaurant_kept (row : Restaurant) (db : Db) :
  OrdersKept db (snd (insertRestaurant row db)).
Proof.
  unfold insertRestaurant. destruct (restaurantAccepted db row); now split.
Qed.

Lemma updateRestaurants_kept (id : string) (set : Restaurant -> Restaurant)
    (db : Db) :
  OrdersKept db (snd (updateRestaurants id set db)).
Proof.
  unfold updateRestaurants.
  destruct (restaurantUpdateAccepted db id set); now split.
Qed.

Lemma insertMenuCategory_kept (displayOrder : number) (row : MenuCategory)
    (db : Db) :
  OrdersKept db (snd (insertMenuCategory displayOrder row db)).
Proof.
  unfold insertMenuCategory.
  destruct (categoryAccepted db displayOrder row); now split.
Qed.

Lemma updateMenuCategories_kept (id : string) (displayOrder : number)
    (set : MenuCategory -> MenuCategory) (db : Db) :
  OrdersKept db (snd (updateMenuCategories id displayOrder set db)).
Proof.
  unfold updateMenuCategories.
  destruct (fits_numeric_10_2 displayOrder); now split.
Qed.

Lemma insertMenuItem_kept (price displayOrder : number) (row : MenuItem)
    (db : Db) :
  OrdersKept db (snd (insertMenuItem price displayOrder row db)).
Proof.
  unfold insertMenuItem.
  destruct (menuItemAccepted db price displayOrder row); now split.
Qed.

Lemma updateMenuItems_kept (id : string) (numbers : list number)
    (categoryId : option string) (set : MenuItem -> MenuItem) (db : Db) :
  OrdersKept db (snd (updateMenuItems id numbers categoryId set db)).
Proof.
  unfold updateMenuItems.
  destruct (forallb fits_numeric_10_2 numbers && _); now split.
Qed.

Create HintDb kept.

#[local] Hint Resolve ordersKept_refl insertRestaurant_kept
  updateRestaurants_kept insertMenuCategory_kept updateMenuCategories_kept
  insertMenuItem_kept updateMenuItems_kept : kept.

Ltac kept_head :=
  match goal with
  | |- OrdersKept _
         (snd (match (match ?x with _ => _ end) _ with _ => _ end)) =>
      destruct x eqn:?
  | |- OrdersKept _
         (snd (match (match ?x with _ => _ end) with _ => _ end)) =>
      destruct x eqn:?
  | |- OrdersKept _ (snd (match ?x with _ => _ end)) => destruct x eqn:?
  | |- OrdersKept _ (snd ((match ?x with _ => _ end) _)) => destruct x eqn:?
  end.

Ltac kept_write :=
  match goal with
  | H : ?w ?db = (_, ?d) |- OrdersKept ?db ?d =>
      replace d with (snd (w db)) by (now rewrite H)
  | _ => idtac
  end;
  auto with kept.

Ltac kept_resolver :=
  unfold bind, query, sessionUser, signedIn, throw, throwOther, ret, write;
  repeat (cbn beta iota zeta delta [snd fst ctx_session]; try kept_head);
  kept_write.

Lemma call_keeps_orders (pf : Platform) (c : Call) (db : Db) :
  isCatalogueEdit c = true -> OrdersKept db (after pf c db).
Proof.
  destruct c; try discriminate; intros _; cbn [after].
  - unfold RestaurantOwner.create.
    destruct (ownerProcedure_cases (RestaurantOwner.createValid pf)
                (RestaurantOwner.createResolver env) ctx input db)
      as [[e ->] | (u & _ & _ & _ & ->)]; [apply ordersKept_refl|].
    unfold RestaurantOwner.createResolver. kept_resolver.
  - unfold RestaurantOwner.update.
    destruct (ownerProcedure_cases (RestaurantOwner.updateValid pf)
                (RestaurantOwner.updateResolver env) ctx input db)
      as [[e ->] | (u & _ & _ & _ & ->)]; [apply ordersKept_refl|].
    unfold RestaurantOwner.updateResolver. kept_resolver.
  - unfold MenuRouter.createCategory.
    destruct (ownerProcedure_cases MenuRouter.createCategoryValid
                (MenuRouter.createCategoryResolver pf env) ctx input db)
      as [[e ->] | (u & _ & _ & _ & ->)]; [apply ordersKept_refl|].
    unfold MenuRouter.createCategoryResolver. kept_resolver.
  - unfold MenuRouter.updateCategory.
    destruct (ownerProcedure_cases MenuRouter.updateCategoryValid
                (MenuRouter.updateCategoryResolver pf env) ctx input db)
      as [[e ->] | (u & _ & _ & _ & ->)]; [apply ordersKept_refl|].
    unfold MenuRouter.updateCategoryResolver. open_owned. kept_resolver.
  - unfold MenuRouter.createItem.
    destruct (ownerProcedure_cases (MenuRouter.createItemValid pf)
                (MenuRouter.createItemResolver pf env) ctx input db)
      as [[e ->] | (u & _ & _ & _ & ->)]; [apply ordersKept_refl|].
    unfold MenuRouter.createItemResolver. kept_resolver.
  - unfold MenuRouter.updateItem.
    destruct (ownerProcedure_cases (MenuRouter.updateItemValid pf)
                (MenuRouter.updateItemResolver pf env) ctx input db)
      as [[e ->] | (u & _ & _ & _ & ->)]; [apply ordersKept_refl|].
    unfold MenuRouter.updateItemResolver. open_owned. kept_resolver.
  - unfold MenuRouter.toggleItemAvailability.
    destruct (ownerProcedure_cases (fun _ => true)
                (MenuRouter.toggleItemAvailabilityResolver env) ctx id db)
      as [[e ->] | (u & _ & _ & _ & ->)]; [apply ordersKept_refl|].
    unfold MenuRouter.toggleItemAvailabilityResolver. open_owned.
    kept_resolver.
Qed.

(** X22.  The catalogue procedures ([restaurant.create] and [update],
    [createCategory], [updateCategory], [createItem], [updateItem],
    [toggleItemAvailability]) never write to the orders: after any
    sequence of such calls, by any callers, with any inputs, succeeding or
    failing, every order and every order item is exactly as before.  The
    unit price and the total on a placed order are those of the time of
    ordering, whatever happens to the menu afterwards. *)
Theorem catalogue_edits_keep_orders :
  forall (pf : Platform) (calls : list Call) (db : Db),
    forallb isCatalogueEdit calls = true ->
    orders (afterAll pf calls db) = orders db
    /\ orderItems (afterAll pf calls db) = orderItems db.
Proof.
  intros pf calls. unfold afterAll.
  induction calls as [|c calls IH]; intros db Hall; cbn [fold_left].
  - now split.
  - cbn [forallb] in Hall. apply andb_prop in Hall as [Hc Hrest].
    apply (ordersKept_trans db (after pf c db)).
    + now apply call_keeps_orders.
    + now apply IH.
Qed.

(** After Alice's order of two burgers Olga raises the price of the
    burger and switches it off: the order's item still has the old unit
    price. *)
Lemma catalogue_edits_keep_orders_witness :
  let ordered := snd (placeOrder Scenario.env0 (signedIn Scenario.alice)
                        Scenario.twoBurgers Scenario.db0) in
  let edits :=
    [ UpdateItem Scenario.env0 (signedIn Scenario.olga)
        (MenuRouter.mkUpdateItemInput "m1" "Burger" None
           (div (ofZ 1049) (ofZ 100)) None true (ofZ 0) None None None
           "c1");
      ToggleItemAvailability Scenario.env0 (signedIn Scenario.olga) "m1" ] in
  map mi_price (menuItems (afterAll Demo.platform edits ordered))
  = [1049; 0; 1; 450]%Z
  /\ map oi_unitPrice (orderItems (afterAll Demo.platform edits ordered))
     = [div (ofZ 999) (ofZ 100)].
Proof.
  cbn zeta. split; [vm_compute; reflexivity|].
  match goal with
  | |- map _ (orderItems (afterAll _ ?calls ?db)) = _ =>
      rewrite (proj2 (catalogue_edits_keep_orders Demo.platform calls db
                        eq_refl))
  end.
  vm_compute. reflexivity.
Defined.

(* ================================================================== *)
(** ** The two remaining queries *)












(* ------------------------------------------------------------------ *)
(** *** Creating and updating a category *)

Lemma createCategory_run (pf : Platform) (env : Env) (ctx : Context)
    (u : User) (input : MenuRouter.CreateCategoryInput) (db : Db) :
  identity ctx = Some u ->
  u_role u = Some "OWNER" ->
  MenuRouter.createCategoryValid input = true ->
  MenuRouter.createCategory pf env ctx input db
  = match findFirst (fun r => r_id r =? MenuRouter.cc_restaurantId input)
            (restaurants db) with
    | None => (Err (mkTRPCError NOT_FOUND "Restaurant not found"), db)
    | Some r =>
        if negb (r_ownerId r =? u_id u) then
          (Err (mkTRPCError FORBIDDEN
                  "You can only add categories to your own restaurants"),
           db)
        else
          insertMenuCategory (MenuRouter.cc_displayOrder input)
            (mkMenuCategory (nanoid env 0) (MenuRouter.cc_name input)
               (MenuRouter.cc_description input)
               (toDecimal pf (MenuRouter.cc_displayOrder input))
               (MenuRouter.cc_restaurantId input) (now env) (now env)) db
    end.
Proof.
  intros Hid Hrole Hv. unfold MenuRouter.createCategory.
  rewrite (ownerProcedure_owner _ _ _ _ _ Hid Hrole).
  unfold publicProcedure. rewrite Hv.
  unfold MenuRouter.createCategoryResolver, bind, query.
  destruct (findFirst _ (restaurants db)) as [r|]; [|reflexivity].
  unfold sessionUser, signedIn; cbn [ctx_session].
  destruct (negb (r_ownerId r =? u_id u)); reflexivity.
Qed.

(** X25.  [createCategory] by a caller who passes the owner gate, with a
    well-formed input: NOT_FOUND when the restaurant does not exist and
    FORBIDDEN when it is not the caller's, with nothing written.
    Otherwise, when the new id is free and the display order fits its
    column, the category is appended to the categories, under the
    restaurant named, and no other table changes; the category is then
    found by its id, under that restaurant, which is what the category
    check of [createItem] reads. *)
Theorem createCategory_behaviour :
  forall (pf : Platform) (env : Env) (ctx : Context) (u : User)
         (input : MenuRouter.CreateCategoryInput) (db : Db),
    identity ctx = Some u ->
    u_role u = Some "OWNER" ->
    MenuRouter.createCategoryValid input = true ->
    let res := MenuRouter.createCategory pf env ctx input db in
    let restaurant :=
      findFirst (fun r => r_id r =? MenuRouter.cc_restaurantId input)
                (restaurants db) in
    (restaurant = None ->
       errorCode (fst res) = Some NOT_FOUND /\ snd res = db)
    /\
    (forall r, restaurant = Some r ->
       (r_ownerId r <> u_id u ->
          errorCode (fst res) = Some FORBIDDEN /\ snd res = db)
       /\
       (r_ownerId r = u_id u ->
        hasId mc_id (nanoid env 0) (menuCategories db) = false ->
        fits_numeric_10_2 (MenuRouter.cc_displayOrder input) = true ->
          exists c,
            fst res = Ok c
            /\ menuCategories (snd res) = menuCategories db ++ [c]
            /\ mc_id c = nanoid env 0
            /\ mc_name c = MenuRouter.cc_name input
            /\ mc_restaurantId c = r_id r
            /\ restaurants (snd res) = restaurants db
            /\ menuItems (snd res) = menuItems db
            /\ orders (snd res) = orders db
            /\ orderItems (snd res) = orderItems db
            /\ findFirst (fun c' => mc_id c' =? mc_id c)
                 (menuCategories (snd res)) = Some c)).
Proof.
  intros pf env ctx u input db Hid Hrole Hv res restaurant.
  subst res restaurant.
  rewrite (createCategory_run pf env ctx u input db Hid Hrole Hv).
  destruct (findFirst _ (restaurants db)) as [r|] eqn:Hr.
  2:{ split; [now split | discriminate]. }
  split; [discriminate|]. intros r' [= <-].
  split.
  { intros Hown. now rewrite (negb_eqb_true _ _ Hown). }
  intros Hown Hfree Hfits.
  assert (Hmine : negb (r_ownerId r =? u_id u) = false)
    by now rewrite Hown, String.eqb_refl.
  rewrite Hmine.
  pose proof (findFirst_present _ _ _ _ Hr) as Hhas.
  apply findFirst_some in Hr as [_ Hrid]. apply String.eqb_eq in Hrid.
  unfold insertMenuCategory, categoryAccepted.
  cbn [mc_id mc_restaurantId]. rewrite Hfree, Hfits, Hhas. cbn [negb andb].
  eexists. split; [reflexivity|].
  cbn [fst snd restaurants menuCategories menuItems orders orderItems
       mc_id mc_name mc_restaurantId].
  do 3 (split; [reflexivity|]). split; [now symmetry|].
  do 4 (split; [reflexivity|]).
  now apply (findFirst_snoc_new mc_id
               (menuCategories db)
               (mkMenuCategory (nanoid env 0) (MenuRouter.cc_name input)
                  (MenuRouter.cc_description input)
                  (toDecimal pf (MenuRouter.cc_displayOrder input))
                  (MenuRouter.cc_restaurantId input) (now env) (now env))).
Qed.

(** Olga adds the desserts to the cafe. *)
Lemma createCategory_behaviour_witness :
  exists c,
    fst (MenuRouter.createCategory Demo.platform Scenario.env0
           (signedIn Scenario.olga)
           (MenuRouter.mkCreateCategoryInput "Desserts" None (ofZ 1) "r1")
           Scenario.db1)
    = Ok c
    /\ mc_restaurantId c = "r1".
Proof.
  destruct (proj2 (proj2
              (createCategory_behaviour Demo.platform Scenario.env0
                 (signedIn Scenario.olga) Scenario.olga
                 (MenuRouter.mkCreateCategoryInput "Desserts" None (ofZ 1)
                    "r1")
                 Scenario.db1 eq_refl eq_refl eq_refl)
              Scenario.cafe eq_refl) eq_refl)
    as (c & Hrun & _ & _ & _ & Hr & _);
    [vm_compute; reflexivity | vm_compute; reflexivity |].
  exists c. split; [exact Hrun | exact Hr].
Defined.



